(** * A shallow embedding of the Synacor virtual machine of [vm.py]

    The Python program is a fetch/decode/execute interpreter over a byte
    image.  Python integers are unbounded, so they are modelled by [Z];
    the memory is a [bytes] object, modelled by [list byte]; the stack is
    a Python list used from its end; exceptions are explicit results that
    carry the machine state at the moment they are raised.  Logging has no
    effect on the machine and is left out. *)

From Stdlib Require Import ZArith List Lia Bool.
From Stdlib Require Import Strings.Byte.
Import ListNotations.
Open Scope Z_scope.

(** ** Exceptions *)

(** The three classes declared at the top of [vm.py] and the built-in
    exceptions the interpreter can raise.  [InvalidRegisterError] is used
    by [setRegister] but no class of that name is declared anywhere in the
    program, so evaluating the name raises [NameError]. *)
Inductive exn : Set :=
| InvalidReadError
| InvalidValueError
| InvalidArgumentsError
| NameError            (* reference to the undefined name InvalidRegisterError *)
| IndexError           (* list.pop on an empty list, str index out of range *)
| KeyError             (* opcode missing from the registry *)
| StructError          (* struct.error from pack or unpack *)
| ZeroDivisionError
| ValueError           (* chr() out of range, tuple unpacking of wrong size *)
| OverflowError        (* chr() of an integer that does not fit a C int *)
| UnicodeEncodeError   (* sys.stdout.write of a character the stream cannot encode *)
| NotImplementedError.

(** ** Bytes, slices and [struct] *)

Definition byte_to_Z (b : byte) : Z := Z.of_N (Byte.to_N b).

Definition byte_of_Z (z : Z) : byte :=
  match Byte.of_N (Z.to_N (z mod 256)) with
  | Some b => b
  | None => x00
  end.

Definition len {A} (l : list A) : Z := Z.of_nat (length l).

(** Python's normalisation of a slice bound against a sequence of length
    [n]: a negative bound counts from the end, and every bound is clamped
    into [0, n]. *)
Definition slice_index (n i : Z) : Z :=
  if i <? 0 then Z.max 0 (i + n) else Z.min i n.

(** [l[i:j]] *)
Definition slice {A} (l : list A) (i j : Z) : list A :=
  let lo := slice_index (len l) i in
  let hi := slice_index (len l) j in
  firstn (Z.to_nat (hi - lo)) (skipn (Z.to_nat lo) l).

(** [l[:j]] and [l[i:]] *)
Definition slice_to {A} (l : list A) (j : Z) : list A := slice l 0 j.
Definition slice_from {A} (l : list A) (i : Z) : list A := slice l i (len l).

(** [struct.pack('<H', data)]: two bytes, little endian; [struct.error]
    unless [0 <= data <= 65535]. *)
Definition pack_H (data : Z) : option (list byte) :=
  if (0 <=? data) && (data <=? 65535)
  then Some [byte_of_Z (data mod 256); byte_of_Z (data / 256)]
  else None.

(** Decoding of a buffer of little-endian 16-bit words; a trailing odd
    byte is dropped (the caller checks the length first). *)
Fixpoint words_of_bytes (bs : list byte) : list Z :=
  match bs with
  | lo :: hi :: rest => (byte_to_Z lo + 256 * byte_to_Z hi) :: words_of_bytes rest
  | _ => []
  end.

(** [struct.unpack('<%dH' % words, buf)]: the buffer must be exactly
    [2 * words] bytes long; a negative count is not a valid format. *)
Definition unpack_H (words : Z) (buf : list byte) : option (list Z) :=
  if (0 <=? words) && (len buf =? 2 * words)
  then Some (words_of_bytes buf)
  else None.

(** ** Machine state *)

(** The dictionary [_registers], whose key set ['r0' .. 'r7'] never
    changes. *)
Record Registers : Set := mkRegisters {
  r0 : Z; r1 : Z; r2 : Z; r3 : Z; r4 : Z; r5 : Z; r6 : Z; r7 : Z
}.

(** The fields of a [VirtualMachine] object, followed by the two standard
    streams it talks to: [sys_stdin] is what is left to read of the
    standard input, as character codes, and [sys_stdout] the character
    codes written so far, oldest first. *)
Record VirtualMachine : Set := mkVM {
  running : bool;
  _memory : list byte;
  _stack : list Z;
  _pc : Z;
  _registers : Registers;
  _stdin : list Z;
  sys_stdin : list Z;
  sys_stdout : list Z
}.

Definition set_running (v : bool) (vm : VirtualMachine) : VirtualMachine :=
  mkVM v (_memory vm) (_stack vm) (_pc vm) (_registers vm) (_stdin vm)
       (sys_stdin vm) (sys_stdout vm).
Definition set_memory (v : list byte) (vm : VirtualMachine) : VirtualMachine :=
  mkVM (running vm) v (_stack vm) (_pc vm) (_registers vm) (_stdin vm)
       (sys_stdin vm) (sys_stdout vm).
Definition set_stack (v : list Z) (vm : VirtualMachine) : VirtualMachine :=
  mkVM (running vm) (_memory vm) v (_pc vm) (_registers vm) (_stdin vm)
       (sys_stdin vm) (sys_stdout vm).
Definition set_pc (v : Z) (vm : VirtualMachine) : VirtualMachine :=
  mkVM (running vm) (_memory vm) (_stack vm) v (_registers vm) (_stdin vm)
       (sys_stdin vm) (sys_stdout vm).
Definition set_registers (v : Registers) (vm : VirtualMachine) : VirtualMachine :=
  mkVM (running vm) (_memory vm) (_stack vm) (_pc vm) v (_stdin vm)
       (sys_stdin vm) (sys_stdout vm).
Definition set_stdin_buffer (v : list Z) (vm : VirtualMachine) : VirtualMachine :=
  mkVM (running vm) (_memory vm) (_stack vm) (_pc vm) (_registers vm) v
       (sys_stdin vm) (sys_stdout vm).
Definition set_sys_stdin (v : list Z) (vm : VirtualMachine) : VirtualMachine :=
  mkVM (running vm) (_memory vm) (_stack vm) (_pc vm) (_registers vm) (_stdin vm)
       v (sys_stdout vm).
Definition set_sys_stdout (v : list Z) (vm : VirtualMachine) : VirtualMachine :=
  mkVM (running vm) (_memory vm) (_stack vm) (_pc vm) (_registers vm) (_stdin vm)
       (sys_stdin vm) v.

(** [VirtualMachine.__init__], given the image and the contents of the
    standard input. *)
Definition init (executable : list byte) (input : list Z) : VirtualMachine :=
  mkVM true executable [] 0 (mkRegisters 0 0 0 0 0 0 0 0) [] input [].

(** ** The monad of methods: state, and exceptions that keep the state *)

Inductive result (A : Type) : Type :=
| Ok (a : A) (vm : VirtualMachine)
| Raise (e : exn) (vm : VirtualMachine).
Arguments Ok {A} a vm.
Arguments Raise {A} e vm.

Definition M (A : Type) : Type := VirtualMachine -> result A.

Definition pure {A} (a : A) : M A := fun vm => Ok a vm.
Definition raise {A} (e : exn) : M A := fun vm => Raise e vm.
Definition bind {A B} (m : M A) (k : A -> M B) : M B :=
  fun vm => match m vm with
            | Ok a vm' => k a vm'
            | Raise e vm' => Raise e vm'
            end.
Definition get {A} (f : VirtualMachine -> A) : M A := fun vm => Ok (f vm) vm.
Definition modify (f : VirtualMachine -> VirtualMachine) : M unit :=
  fun vm => Ok tt (f vm).

Declare Scope vm_scope.
Delimit Scope vm_scope with vm.
Notation "x <- m ;; k" := (bind m (fun x => k))
  (at level 61, m at next level, right associativity) : vm_scope.
Notation "m ;; k" := (bind m (fun _ => k))
  (at level 61, right associativity) : vm_scope.
Open Scope vm_scope.

(** The state a computation ends in, whether it returns or raises. *)
Definition final {A} (r : result A) : VirtualMachine :=
  match r with Ok _ vm => vm | Raise _ vm => vm end.

(** ** Methods of [VirtualMachine] *)

(** The [stdin] property: refill the line buffer from the standard input
    when it is empty, then hand out its first character. *)
Fixpoint readline (src : list Z) : list Z * list Z :=
  match src with
  | [] => ([], [])
  | c :: rest =>
      if c =? 10 then ([c], rest)
      else let (line, rest') := readline rest in (c :: line, rest')
  end.

Definition stdin : M Z :=
  buf <- get _stdin ;;
  (match buf with
   | [] =>
       src <- get sys_stdin ;;
       let (line, rest) := readline src in
       modify (set_sys_stdin rest) ;;
       modify (set_stdin_buffer line)
   | _ :: _ => pure tt
   end) ;;
  buf <- get _stdin ;;
  match buf with
  | [] => raise IndexError
  | c :: rest => modify (set_stdin_buffer rest) ;; pure c
  end.

Definition push (val : Z) : M unit :=
  modify (fun vm => set_stack (_stack vm ++ [val]) vm).

Definition pop : M Z :=
  st <- get _stack ;;
  match st with
  | [] => raise IndexError
  | _ :: _ => modify (set_stack (removelast st)) ;; pure (last st 0)
  end.

(** The last branch is [raise InvalidRegisterError(...)]: the name is
    bound nowhere in the program, so what is raised is [NameError]. *)
Definition setRegister (reg value : Z) : M unit :=
  rs <- get _registers ;;
  if reg =? 32768 then
    modify (set_registers (mkRegisters value (r1 rs) (r2 rs) (r3 rs) (r4 rs) (r5 rs) (r6 rs) (r7 rs)))
  else if reg =? 32769 then
    modify (set_registers (mkRegisters (r0 rs) value (r2 rs) (r3 rs) (r4 rs) (r5 rs) (r6 rs) (r7 rs)))
  else if reg =? 32770 then
    modify (set_registers (mkRegisters (r0 rs) (r1 rs) value (r3 rs) (r4 rs) (r5 rs) (r6 rs) (r7 rs)))
  else if reg =? 32771 then
    modify (set_registers (mkRegisters (r0 rs) (r1 rs) (r2 rs) value (r4 rs) (r5 rs) (r6 rs) (r7 rs)))
  else if reg =? 32772 then
    modify (set_registers (mkRegisters (r0 rs) (r1 rs) (r2 rs) (r3 rs) value (r5 rs) (r6 rs) (r7 rs)))
  else if reg =? 32773 then
    modify (set_registers (mkRegisters (r0 rs) (r1 rs) (r2 rs) (r3 rs) (r4 rs) value (r6 rs) (r7 rs)))
  else if reg =? 32774 then
    modify (set_registers (mkRegisters (r0 rs) (r1 rs) (r2 rs) (r3 rs) (r4 rs) (r5 rs) value (r7 rs)))
  else if reg =? 32775 then
    modify (set_registers (mkRegisters (r0 rs) (r1 rs) (r2 rs) (r3 rs) (r4 rs) (r5 rs) (r6 rs) value))
  else raise NameError.

Definition getValueOrReg (value : Z) : M Z :=
  if (0 <=? value) && (value <=? 32767) then pure value
  else if value =? 32768 then get (fun vm => r0 (_registers vm))
  else if value =? 32769 then get (fun vm => r1 (_registers vm))
  else if value =? 32770 then get (fun vm => r2 (_registers vm))
  else if value =? 32771 then get (fun vm => r3 (_registers vm))
  else if value =? 32772 then get (fun vm => r4 (_registers vm))
  else if value =? 32773 then get (fun vm => r5 (_registers vm))
  else if value =? 32774 then get (fun vm => r6 (_registers vm))
  else if value =? 32775 then get (fun vm => r7 (_registers vm))
  else raise InvalidValueError.

Definition readMemory (address words : Z) : M (list Z) :=
  if (words =? 0) || (words >? 2 ^ 15) then raise InvalidReadError
  else
    mem <- get _memory ;;
    match unpack_H words (slice mem (address * 2) (address * 2 + 2 * words)) with
    | Some ws => pure ws
    | None => raise StructError
    end.

Definition writeMemory (address data : Z) : M unit :=
  mem <- get _memory ;;
  let before := slice_to mem (address * 2) in
  match pack_H data with
  | None => raise StructError
  | Some packed =>
      let after := slice_from mem (address * 2 + 2) in
      modify (set_memory (before ++ packed ++ after))
  end.

(** ** The instruction catalog *)

(** The classes registered by [RegisterInstructionsMetaclass]: the base
    class [Instruction] itself (it is not among its own bases, so the
    metaclass registers it under its [OPCODE] of -1) and its 22
    subclasses. *)
Inductive opclass : Set :=
| CInstruction
| CHalt | CSet | CPush | CPop | CEq | CGt | CJmp | CJt | CJf
| CAdd | CMult | CMod | CAnd | COr | CNot | CRmem | CWmem
| CCall | CRet | COut | CIn | CNoop.

Definition OPCODE (c : opclass) : Z :=
  match c with
  | CInstruction => -1
  | CHalt => 0 | CSet => 1 | CPush => 2 | CPop => 3 | CEq => 4 | CGt => 5
  | CJmp => 6 | CJt => 7 | CJf => 8 | CAdd => 9 | CMult => 10 | CMod => 11
  | CAnd => 12 | COr => 13 | CNot => 14 | CRmem => 15 | CWmem => 16
  | CCall => 17 | CRet => 18 | COut => 19 | CIn => 20 | CNoop => 21
  end.

Definition ARGS (c : opclass) : Z :=
  match c with
  | CInstruction | CHalt | CRet | CNoop => 0
  | CPush | CPop | CJmp | CCall | COut | CIn => 1
  | CSet | CJt | CJf | CNot | CRmem | CWmem => 2
  | CEq | CGt | CAdd | CMult | CMod | CAnd | COr => 3
  end.

(** [len(cls)] and [len(self)] *)
Definition class_len (c : opclass) : Z := 1 + ARGS c.

(** [cls.registry] *)
Definition registry (opcode : Z) : option opclass :=
  match opcode with
  | -1 => Some CInstruction
  | 0 => Some CHalt | 1 => Some CSet | 2 => Some CPush | 3 => Some CPop
  | 4 => Some CEq | 5 => Some CGt | 6 => Some CJmp | 7 => Some CJt
  | 8 => Some CJf | 9 => Some CAdd | 10 => Some CMult | 11 => Some CMod
  | 12 => Some CAnd | 13 => Some COr | 14 => Some CNot | 15 => Some CRmem
  | 16 => Some CWmem | 17 => Some CCall | 18 => Some CRet | 19 => Some COut
  | 20 => Some CIn | 21 => Some CNoop
  | _ => None
  end.

(** A decoded instruction: its class and the raw operand words. *)
Record Instruction : Set := mkInstruction {
  cls : opclass;
  _args : list Z
}.

(** Tuple unpacking [a, b = self._args] and friends, and [self._args[0]]. *)
Definition unpack2 (args : list Z) : M (Z * Z) :=
  match args with
  | [a; b] => pure (a, b)
  | _ => raise ValueError
  end.

Definition unpack3 (args : list Z) : M (Z * Z * Z) :=
  match args with
  | [a; b; c] => pure (a, b, c)
  | _ => raise ValueError
  end.

Definition index0 (args : list Z) : M Z :=
  match args with
  | a :: _ => pure a
  | [] => raise IndexError
  end.

(** [Instruction.incpc]: [self._vm.pc += len(self)] *)
Definition default_incpc (c : opclass) : M unit :=
  pc <- get _pc ;;
  modify (set_pc (pc + class_len c)).

(** [chr(v)] *)
Definition chr (v : Z) : M Z :=
  if (v <? - 2 ^ 31) || (v >? 2 ^ 31 - 1) then raise OverflowError
  else if (v <? 0) || (v >? 1114111) then raise ValueError
  else pure v.

(** [sys.stdout.write(s)] for a one-character string.  The standard
    output is a text stream that encodes what it is given as it is
    written, in UTF-8 with the strict error handler: a lone surrogate,
    from 0xD800 to 0xDFFF, cannot be encoded and raises
    [UnicodeEncodeError] with nothing written. *)
Definition stdout_write (c : Z) : M unit :=
  if (55296 <=? c) && (c <=? 57343) then raise UnicodeEncodeError
  else modify (fun vm => set_sys_stdout (sys_stdout vm ++ [c]) vm).

Module Halt.
Definition exec (args : list Z) : M unit := modify (set_running false).
End Halt.

Module Set_.
Definition exec (args : list Z) : M unit :=
  ab <- unpack2 args ;;
  let '(a, b) := ab in
  v <- getValueOrReg b ;;
  setRegister a v.
End Set_.

Module Push.
Definition exec (args : list Z) : M unit :=
  a <- index0 args ;;
  v <- getValueOrReg a ;;
  push v.
End Push.

Module Pop.
Definition exec (args : list Z) : M unit :=
  a <- index0 args ;;
  val <- pop ;;
  v <- getValueOrReg val ;;
  setRegister a v.
End Pop.

Module Eq.
Definition exec (args : list Z) : M unit :=
  abc <- unpack3 args ;;
  let '(a, b, c) := abc in
  vb <- getValueOrReg b ;;
  vc <- getValueOrReg c ;;
  if vb =? vc then setRegister a 1 else setRegister a 0.
End Eq.

Module Gt.
Definition exec (args : list Z) : M unit :=
  abc <- unpack3 args ;;
  let '(a, b, c) := abc in
  vb <- getValueOrReg b ;;
  vc <- getValueOrReg c ;;
  if vb >? vc then setRegister a 1 else setRegister a 0.
End Gt.

Module Jmp.
Definition exec (args : list Z) : M unit :=
  a <- index0 args ;; pure tt.
Definition incpc (args : list Z) : M unit :=
  a <- index0 args ;;
  v <- getValueOrReg a ;;
  modify (set_pc v).
End Jmp.

Module Jt.
Definition exec (args : list Z) : M unit :=
  ab <- unpack2 args ;; pure tt.
Definition incpc (args : list Z) : M unit :=
  ab <- unpack2 args ;;
  let '(a, b) := ab in
  va <- getValueOrReg a ;;
  if negb (va =? 0) then
    vb <- getValueOrReg b ;; modify (set_pc vb)
  else default_incpc CJt.
End Jt.

Module Jf.
Definition exec (args : list Z) : M unit :=
  ab <- unpack2 args ;; pure tt.
Definition incpc (args : list Z) : M unit :=
  ab <- unpack2 args ;;
  let '(a, b) := ab in
  va <- getValueOrReg a ;;
  if va =? 0 then
    vb <- getValueOrReg b ;; modify (set_pc vb)
  else default_incpc CJf.
End Jf.

Module Add.
Definition exec (args : list Z) : M unit :=
  abc <- unpack3 args ;;
  let '(a, b, c) := abc in
  vb <- getValueOrReg b ;;
  vc <- getValueOrReg c ;;
  setRegister a ((vb + vc) mod 2 ^ 15).
End Add.

Module Mult.
Definition exec (args : list Z) : M unit :=
  abc <- unpack3 args ;;
  let '(a, b, c) := abc in
  vb <- getValueOrReg b ;;
  vc <- getValueOrReg c ;;
  setRegister a ((vb * vc) mod 2 ^ 15).
End Mult.

Module Mod.
(** Python's [%] rounds towards minus infinity, as [Z.modulo] does, and
    raises on a zero divisor. *)
Definition exec (args : list Z) : M unit :=
  abc <- unpack3 args ;;
  let '(a, b, c) := abc in
  vb <- getValueOrReg b ;;
  vc <- getValueOrReg c ;;
  if vc =? 0 then raise ZeroDivisionError
  else setRegister a (vb mod vc).
End Mod.

Module And.
Definition exec (args : list Z) : M unit :=
  abc <- unpack3 args ;;
  let '(a, b, c) := abc in
  vb <- getValueOrReg b ;;
  vc <- getValueOrReg c ;;
  setRegister a (Z.land vb vc).
End And.

Module Or.
Definition exec (args : list Z) : M unit :=
  abc <- unpack3 args ;;
  let '(a, b, c) := abc in
  vb <- getValueOrReg b ;;
  vc <- getValueOrReg c ;;
  setRegister a (Z.lor vb vc).
End Or.

Module Not.
Definition exec (args : list Z) : M unit :=
  ab <- unpack2 args ;;
  let '(a, b) := ab in
  vb <- getValueOrReg b ;;
  setRegister a (Z.land (Z.lnot vb) 32767).
End Not.

Module Rmem.
Definition exec (args : list Z) : M unit :=
  ab <- unpack2 args ;;
  let '(a, b) := ab in
  addr <- getValueOrReg b ;;
  ws <- readMemory addr 1 ;;
  val <- index0 ws ;;
  setRegister a val.
End Rmem.

Module Wmem.
Definition exec (args : list Z) : M unit :=
  ab <- unpack2 args ;;
  let '(a, b) := ab in
  addr <- getValueOrReg a ;;
  data <- getValueOrReg b ;;
  writeMemory addr data.
End Wmem.

Module Call.
Definition exec (args : list Z) : M unit :=
  a <- index0 args ;;
  pc <- get _pc ;;
  push (pc + class_len CCall).
Definition incpc (args : list Z) : M unit :=
  a <- index0 args ;;
  v <- getValueOrReg a ;;
  modify (set_pc v).
End Call.

Module Ret.
Definition exec (args : list Z) : M unit := pure tt.
Definition incpc (args : list Z) : M unit :=
  val <- pop ;;
  a <- getValueOrReg val ;;
  v <- getValueOrReg a ;;
  modify (set_pc v).
End Ret.

Module Out.
Definition exec (args : list Z) : M unit :=
  a <- index0 args ;;
  v <- getValueOrReg a ;;
  c <- chr v ;;
  stdout_write c.
End Out.

Module In_.
(** [ord] of a one-character string is its code, which is how the
    characters of the input are represented here. *)
Definition exec (args : list Z) : M unit :=
  a <- index0 args ;;
  c <- stdin ;;
  setRegister a c.
End In_.

Module Noop.
Definition exec (args : list Z) : M unit := pure tt.
End Noop.

(** [Instruction.__init__]: the operand count is checked against the
    class. *)
Definition new_instruction (c : opclass) (args : list Z) : M Instruction :=
  if negb (len args =? ARGS c) then raise InvalidArgumentsError
  else pure (mkInstruction c args).

(** [instruction.exec()], by the class of the instruction. *)
Definition exec (i : Instruction) : M unit :=
  match cls i with
  | CInstruction => raise NotImplementedError
  | CHalt => Halt.exec (_args i)
  | CSet => Set_.exec (_args i)
  | CPush => Push.exec (_args i)
  | CPop => Pop.exec (_args i)
  | CEq => Eq.exec (_args i)
  | CGt => Gt.exec (_args i)
  | CJmp => Jmp.exec (_args i)
  | CJt => Jt.exec (_args i)
  | CJf => Jf.exec (_args i)
  | CAdd => Add.exec (_args i)
  | CMult => Mult.exec (_args i)
  | CMod => Mod.exec (_args i)
  | CAnd => And.exec (_args i)
  | COr => Or.exec (_args i)
  | CNot => Not.exec (_args i)
  | CRmem => Rmem.exec (_args i)
  | CWmem => Wmem.exec (_args i)
  | CCall => Call.exec (_args i)
  | CRet => Ret.exec (_args i)
  | COut => Out.exec (_args i)
  | CIn => In_.exec (_args i)
  | CNoop => Noop.exec (_args i)
  end.

(** [instruction.incpc()]: [jmp], [jt], [jf], [call] and [ret] override
    the method of the base class. *)
Definition incpc (i : Instruction) : M unit :=
  match cls i with
  | CJmp => Jmp.incpc (_args i)
  | CJt => Jt.incpc (_args i)
  | CJf => Jf.incpc (_args i)
  | CCall => Call.incpc (_args i)
  | CRet => Ret.incpc (_args i)
  | c => default_incpc c
  end.

(** [Instruction.decode] *)
Definition decode : M Instruction :=
  pc <- get _pc ;;
  ws <- readMemory pc 1 ;;
  opcode <- index0 ws ;;
  match registry opcode with
  | None => raise KeyError
  | Some instruction =>
      if negb (ARGS instruction =? 0) then
        pc <- get _pc ;;
        args <- readMemory (pc + 1) (class_len instruction - 1) ;;
        new_instruction instruction args
      else new_instruction instruction []
  end.

(** ** The interpreter loop *)

(** One turn of the [while] loop of [run]. *)
Definition loop_body : M unit :=
  instruction <- decode ;;
  exec instruction ;;
  incpc instruction.

(** [VirtualMachine.run]; the loop need not terminate, so it is given a
    bound on the number of turns and answers [None] when the bound is
    reached with the machine still running. *)
Fixpoint run (fuel : nat) (vm : VirtualMachine) : option (result unit) :=
  if running vm then
    match fuel with
    | O => None
    | S fuel' =>
        match loop_body vm with
        | Ok _ vm' => run fuel' vm'
        | Raise e vm' => Some (Raise e vm')
        end
    end
  else Some (Ok tt vm).

(** [main] under the [try] of the script: the status handed to
    [sys.exit], 0 when [run] returns and -1 when any exception reaches the
    top level, together with the characters written. *)
Definition main (fuel : nat) (program : list byte) (input : list Z)
  : option (Z * list Z) :=
  match run fuel (init program input) with
  | None => None
  | Some (Ok _ vm) => Some (0, sys_stdout vm)
  | Some (Raise _ vm) => Some (-1, sys_stdout vm)
  end.

(** A program image made of the given words, as the bytes of the file. *)
Fixpoint image_of_words (ws : list Z) : list byte :=
  match ws with
  | [] => []
  | w :: rest => byte_of_Z (w mod 256) :: byte_of_Z (w / 256) :: image_of_words rest
  end.

(** ** Registers by index *)

(** Register [i] of the bank, for [i] from 0 to 7, and the bank with
    register [i] replaced: the eight keys of the dictionary, numbered. *)
Definition register (i : Z) (rs : Registers) : Z :=
  match i with
  | 0 => r0 rs | 1 => r1 rs | 2 => r2 rs | 3 => r3 rs
  | 4 => r4 rs | 5 => r5 rs | 6 => r6 rs | 7 => r7 rs
  | _ => 0
  end.

Definition with_register (i v : Z) (rs : Registers) : Registers :=
  match i with
  | 0 => mkRegisters v (r1 rs) (r2 rs) (r3 rs) (r4 rs) (r5 rs) (r6 rs) (r7 rs)
  | 1 => mkRegisters (r0 rs) v (r2 rs) (r3 rs) (r4 rs) (r5 rs) (r6 rs) (r7 rs)
  | 2 => mkRegisters (r0 rs) (r1 rs) v (r3 rs) (r4 rs) (r5 rs) (r6 rs) (r7 rs)
  | 3 => mkRegisters (r0 rs) (r1 rs) (r2 rs) v (r4 rs) (r5 rs) (r6 rs) (r7 rs)
  | 4 => mkRegisters (r0 rs) (r1 rs) (r2 rs) (r3 rs) v (r5 rs) (r6 rs) (r7 rs)
  | 5 => mkRegisters (r0 rs) (r1 rs) (r2 rs) (r3 rs) (r4 rs) v (r6 rs) (r7 rs)
  | 6 => mkRegisters (r0 rs) (r1 rs) (r2 rs) (r3 rs) (r4 rs) (r5 rs) v (r7 rs)
  | 7 => mkRegisters (r0 rs) (r1 rs) (r2 rs) (r3 rs) (r4 rs) (r5 rs) (r6 rs) v
  | _ => rs
  end.

(** What the specification calls [ret]: one resolution of the popped
    value.  It is stated here only to be compared with [Ret.incpc]. *)
Definition ret_single_resolution : M unit :=
  val <- pop ;;
  v <- getValueOrReg val ;;
  modify (set_pc v).

(** ** States and images used as examples *)

Definition sample_vm : VirtualMachine :=
  mkVM true (image_of_words [1; 32768; 32769; 0]) [4; 5] 0
       (mkRegisters 11 12 13 14 15 16 17 18) [] [] [].

(** [set] with the literal 5 where a register is expected. *)
Definition bad_register_image : list byte := image_of_words [1; 5; 7; 0].

(** Loads 32769 into r0 and 32768 into r2 from the data words at 12 and
    13, pushes r2, sets r1 to 14 and executes [ret]; the word at 14 is
    [halt]. *)
Definition ret_image : list byte :=
  image_of_words
    [15; 32768; 12; 15; 32770; 13; 2; 32770; 1; 32769; 14; 18;
     32769; 32768; 0].

(** The machine of [ret_image] when it is about to execute [ret]. *)
Definition before_ret : VirtualMachine :=
  mkVM true ret_image [32768] 11 (mkRegisters 32769 14 32768 0 0 0 0 0)
       [] [] [].

Definition scenario4_image : list byte :=
  image_of_words [17; 9; 21; 21; 21; 19; 65; 18; 0].

(** The machine after the given number of turns of the loop of [run],
    stopping early when it halts or raises. *)
Fixpoint steps (n : nat) (vm : VirtualMachine) : result unit :=
  match n with
  | O => Ok tt vm
  | S n' =>
      if running vm then
        match loop_body vm with
        | Ok _ vm' => steps n' vm'
        | Raise e vm' => Raise e vm'
        end
      else Ok tt vm
  end.

(** The little-endian 16-bit word at word address [k] of a byte
    sequence. *)
Definition word_at (mem : list byte) (k : Z) : Z :=
  byte_to_Z (nth (Z.to_nat (2 * k)) mem x00) +
  256 * byte_to_Z (nth (Z.to_nat (2 * k + 1)) mem x00).

(** [pop r0] as the first instruction, and [in r0] followed by [halt]. *)
Definition pop_image : list byte := image_of_words [3; 32768; 0].
Definition in_image : list byte := image_of_words [20; 32768; 0].

(** ** Words, reachable states and the invariant of the run *)

(** A word of the architecture, and a raw 16-bit word as the memory
    stores it. *)
Definition word (z : Z) : Prop := 0 <= z <= 32767.
Definition word16 (z : Z) : Prop := 0 <= z <= 65535.

(** Every register satisfies [P]. *)
Definition registers_within (P : Z -> Prop) (rs : Registers) : Prop :=
  forall i, 0 <= i <= 7 -> P (register i rs).

(** The states the loop of [run] goes through, from [vm0]: each is
    obtained from the previous one by a turn that returns. *)
Inductive reachable (vm0 : VirtualMachine) : VirtualMachine -> Prop :=
| reachable_start : reachable vm0 vm0
| reachable_turn (vm vm' : VirtualMachine) :
    reachable vm0 vm ->
    running vm = true ->
    loop_body vm = Ok tt vm' ->
    reachable vm0 vm'.

(** [rmem r0 3] followed by the data word 40000. *)
Definition rmem_image : list byte := image_of_words [15; 32768; 3; 40000].

Definition after_rmem : VirtualMachine :=
  mkVM true rmem_image [] 3 (mkRegisters 40000 0 0 0 0 0 0 0) [] [] [].

(** [in r0], [rmem r1 3], [add r2 r0 r1], [halt], and the machine after
    the first three instructions on the input "a" and a newline: the word
    at address 3 is the register operand 32769 of the [rmem] itself. *)
Definition in_rmem_add_image : list byte :=
  image_of_words [20; 32768; 15; 32769; 3; 9; 32770; 32768; 32769; 0].

Definition after_in_rmem_add : VirtualMachine :=
  mkVM true in_rmem_add_image [] 9
       (mkRegisters 97 32769 98 0 0 0 0 0) [10] [] [].

Record invariant (vm : VirtualMachine) : Prop := mkInvariant {
  inv_registers : registers_within word16 (_registers vm);
  inv_buffer : Forall word16 (_stdin vm);
  inv_input : Forall word16 (sys_stdin vm)
}.

(** A computation that keeps the invariant whether it returns or raises,
    and returns values satisfying [Q]. *)
Definition keeps {A} (m : M A) (Q : A -> Prop) : Prop :=
  forall vm, invariant vm ->
             match m vm with
             | Ok a vm' => invariant vm' /\ Q a
             | Raise _ vm' => invariant vm'
             end.

(** A machine whose program counter is beyond the literal range, with a
    register operand to call through. *)
Definition high_pc_vm : VirtualMachine :=
  mkVM true (image_of_words [17; 32768]) [] 40000
       (mkRegisters 6 0 0 0 0 0 0 0) [] [] [].

(** ** Errors the loop cannot raise *)

(** The three errors whose guards never fire in [run]: a read of zero or
    too many words, an operand count that differs from the arity of the
    class, and the [exec] of the base class. *)
Definition guard_error (e : exn) : Prop :=
  e = InvalidReadError \/ e = InvalidArgumentsError \/ e = NotImplementedError.

(** A computation that never raises one of them. *)
Definition avoids {A} (m : M A) : Prop :=
  forall vm e vm', m vm = Raise e vm' -> ~ guard_error e.

(** A machine whose program counter is on the word 22, which is no
    opcode. *)
Definition unknown_opcode_vm : VirtualMachine :=
  mkVM true (image_of_words [21; 22; 0]) [] 1
       (mkRegisters 0 0 0 0 0 0 0 0) [] [] [].

(** A machine with one character left in its line buffer and more input
    on the standard input. *)
Definition buffered_vm : VirtualMachine :=
  mkVM true (image_of_words [20; 32768; 0]) [] 0
       (mkRegisters 0 0 0 0 0 0 0 0) [10] [98; 99; 10; 100] [].

(** ** What a computation may change *)

(** A computation whose final state, whether it returns or raises, is
    related to its initial state by [R]. *)
Definition transits (R : VirtualMachine -> VirtualMachine -> Prop) {A}
    (m : M A) : Prop :=
  forall vm, R vm (final (m vm)).

(** A preorder on machines that ignores the running flag, the stack and
    the program counter. *)
Record frame_relation (R : VirtualMachine -> VirtualMachine -> Prop) : Prop :=
  mkFrame {
    fr_refl : forall vm, R vm vm;
    fr_trans : forall vm1 vm2 vm3, R vm1 vm2 -> R vm2 vm3 -> R vm1 vm3;
    fr_running : forall v vm, R vm (set_running v vm);
    fr_stack : forall v vm, R vm (set_stack v vm);
    fr_pc : forall v vm, R vm (set_pc v vm)
  }.

(** The classes whose [exec] calls [setRegister]. *)
Definition writes_register (c : opclass) : bool :=
  match c with
  | CSet | CPop | CEq | CGt | CAdd | CMult | CMod | CAnd | COr | CNot
  | CRmem | CIn => true
  | _ => false
  end.

(** The output of [vm'] extends that of [vm]. *)
Definition output_extends (vm vm' : VirtualMachine) : Prop :=
  exists l, sys_stdout vm' = sys_stdout vm ++ l.

(** The input left in [vm'], buffer then standard input, is what is left
    in [vm] without some of its first characters. *)
Definition input_consumed (vm vm' : VirtualMachine) : Prop :=
  exists l, _stdin vm ++ sys_stdin vm = l ++ _stdin vm' ++ sys_stdin vm'.

Definition same_memory (vm vm' : VirtualMachine) : Prop :=
  _memory vm' = _memory vm.

Definition same_registers (vm vm' : VirtualMachine) : Prop :=
  _registers vm' = _registers vm.

(** [out "h"], [in r0], [out r0], [halt] and the machine after the first
    three instructions on the input "x", newline, "y". *)
Definition echo_image : list byte :=
  image_of_words [19; 104; 20; 32768; 19; 32768; 0].

Definition after_echo : VirtualMachine :=
  mkVM true echo_image [] 6 (mkRegisters 120 0 0 0 0 0 0 0) [10] [121]
       [104; 120].

(** Three [noop] and nothing else, with the program counter on the
    first word past the image. *)
Definition off_the_end_vm : VirtualMachine :=
  mkVM true (image_of_words [21; 21; 21]) [] 3
       (mkRegisters 0 0 0 0 0 0 0 0) [] [] [].



(** [in r0], [wmem 7 r0], [rmem r1 7], [halt], and the machine after the
    [in] has read the character of code 128512, which is followed by a
    newline. *)
Definition big_char_image : list byte :=
  image_of_words [20; 32768; 16; 7; 32768; 15; 32769; 7; 0].

Definition after_big_char : VirtualMachine :=
  mkVM true big_char_image [] 2 (mkRegisters 128512 0 0 0 0 0 0 0) [10] [] [].

(** * Properties *)

(** ** Small facts about the model *)

Ltac register_cases r :=
  let H := fresh in
  assert (H : r = 32768 \/ r = 32769 \/ r = 32770 \/ r = 32771 \/
              r = 32772 \/ r = 32773 \/ r = 32774 \/ r = 32775) by lia;
  repeat (destruct H as [H | H]); subst r.

Lemma vm_eta (vm : VirtualMachine) :
  mkVM (running vm) (_memory vm) (_stack vm) (_pc vm) (_registers vm)
       (_stdin vm) (sys_stdin vm) (sys_stdout vm) = vm.
Proof. destruct vm; reflexivity. Qed.

Lemma getValueOrReg_final (w : Z) (vm : VirtualMachine) :
  final (getValueOrReg w vm) = vm.
Proof.
  unfold getValueOrReg.
  repeat match goal with
         | |- context [if ?c then _ else _] => destruct c
         end; reflexivity.
Qed.

Lemma getValueOrReg_literal (w : Z) (vm : VirtualMachine) :
  0 <= w <= 32767 -> getValueOrReg w vm = Ok w vm.
Proof.
  intros Hw. unfold getValueOrReg.
  replace ((0 <=? w) && (w <=? 32767)) with true; [reflexivity|].
  symmetry. apply andb_true_iff. split; apply Z.leb_le; lia.
Qed.

Lemma getValueOrReg_register (w : Z) (vm : VirtualMachine) :
  32768 <= w <= 32775 ->
  getValueOrReg w vm = Ok (register (w - 32768) (_registers vm)) vm.
Proof. intros Hw. register_cases w; reflexivity. Qed.

Lemma getValueOrReg_invalid (w : Z) (vm : VirtualMachine) :
  ~ 0 <= w <= 32775 -> getValueOrReg w vm = Raise InvalidValueError vm.
Proof.
  intros Hw. unfold getValueOrReg.
  replace ((0 <=? w) && (w <=? 32767)) with false.
  - repeat match goal with
           | |- context [?x =? ?y] => destruct (Z.eqb_spec x y); [lia|]
           end.
    reflexivity.
  - symmetry. apply andb_false_iff.
    destruct (Z.leb_spec 0 w); [right; apply Z.leb_gt; lia | now left].
Qed.

(** Resolution either yields a value in the same state or raises
    [InvalidValueError] in the same state. *)
Lemma getValueOrReg_cases (w : Z) (vm : VirtualMachine) :
  (exists v, getValueOrReg w vm = Ok v vm) \/
  getValueOrReg w vm = Raise InvalidValueError vm.
Proof.
  destruct (Z_le_dec 0 w) as [H0|H0]; [destruct (Z_le_dec w 32767) as [H1|H1]|].
  - left. eexists. apply getValueOrReg_literal. lia.
  - destruct (Z_le_dec w 32775) as [H2|H2].
    + left. eexists. apply getValueOrReg_register. lia.
    + right. apply getValueOrReg_invalid. lia.
  - right. apply getValueOrReg_invalid. lia.
Qed.

(** Resolution looks at the registers only. *)
Lemma getValueOrReg_registers_only (w x : Z) (vm vm1 : VirtualMachine) :
  _registers vm1 = _registers vm ->
  getValueOrReg w vm = Ok x vm ->
  getValueOrReg w vm1 = Ok x vm1.
Proof.
  intros Hr H.
  destruct (Z_le_dec 0 w) as [H0|H0]; [destruct (Z_le_dec w 32767) as [H1|H1]|].
  - rewrite getValueOrReg_literal in * by lia. congruence.
  - destruct (Z_le_dec w 32775) as [H2|H2].
    + rewrite getValueOrReg_register in * by lia. rewrite Hr. congruence.
    + rewrite getValueOrReg_invalid in H by lia. discriminate H.
  - rewrite getValueOrReg_invalid in H by lia. discriminate H.
Qed.

Lemma setRegister_valid (reg value : Z) (vm : VirtualMachine) :
  32768 <= reg <= 32775 ->
  setRegister reg value vm =
  Ok tt (set_registers (with_register (reg - 32768) value (_registers vm)) vm).
Proof. intros Hr. register_cases reg; reflexivity. Qed.

Lemma setRegister_invalid (reg value : Z) (vm : VirtualMachine) :
  ~ 32768 <= reg <= 32775 -> setRegister reg value vm = Raise NameError vm.
Proof.
  intros Hr. unfold setRegister, bind, get.
  repeat match goal with
         | |- context [?x =? ?y] => destruct (Z.eqb_spec x y); [lia|]
         end.
  reflexivity.
Qed.

Lemma register_with_register (i v : Z) (rs : Registers) :
  0 <= i <= 7 -> register i (with_register i v rs) = v.
Proof.
  intros Hi.
  assert (H : i = 0 \/ i = 1 \/ i = 2 \/ i = 3 \/ i = 4 \/ i = 5 \/ i = 6 \/ i = 7)
    by lia.
  repeat (destruct H as [H | H]); subst i; reflexivity.
Qed.

(** ** Operand resolution *)

(** C1.  A raw operand from 0 to 32767 resolves to itself, one from 32768
    to 32775 to the current value of register [w - 32768], and any other
    integer raises [InvalidValueError]; in every case the machine is left
    exactly as it was (registers, memory, stack, program counter and
    streams). *)
Theorem getValueOrReg_spec (vm : VirtualMachine) (w : Z) :
  (0 <= w <= 32767 -> getValueOrReg w vm = Ok w vm) /\
  (32768 <= w <= 32775 ->
   getValueOrReg w vm = Ok (register (w - 32768) (_registers vm)) vm) /\
  (~ 0 <= w <= 32775 -> getValueOrReg w vm = Raise InvalidValueError vm) /\
  final (getValueOrReg w vm) = vm.
Proof.
  repeat split.
  - apply getValueOrReg_literal.
  - apply getValueOrReg_register.
  - apply getValueOrReg_invalid.
  - apply getValueOrReg_final.
Qed.

Lemma getValueOrReg_spec_witness :
  getValueOrReg 65 sample_vm = Ok 65 sample_vm /\
  getValueOrReg 32770 sample_vm = Ok 13 sample_vm /\
  getValueOrReg 32776 sample_vm = Raise InvalidValueError sample_vm.
Proof.
  split; [|split].
  - apply (proj1 (getValueOrReg_spec sample_vm 65)). lia.
  - apply (proj1 (proj2 (getValueOrReg_spec sample_vm 32770))). lia.
  - apply (proj1 (proj2 (proj2 (getValueOrReg_spec sample_vm 32776)))). lia.
Defined.

(** ** Register writes *)

(** C5.  The literal 5 is not a register: [setRegister 5 7] does fail, but
    with [NameError], because the class [InvalidRegisterError] it tries to
    raise is never defined; the image [1, 5, 7, 0] ends the run this way
    on its first instruction, with exit status -1. *)
Theorem setRegister_raises_NameError :
  setRegister 5 7 (init bad_register_image []) =
    Raise NameError (init bad_register_image []) /\
  run 1 (init bad_register_image []) =
    Some (Raise NameError (init bad_register_image [])) /\
  main 1 bad_register_image [] = Some (-1, []).
Proof. repeat split. Qed.

(** ** Arithmetic *)

Ltac monad_unfold :=
  cbv beta iota delta [bind pure get modify raise unpack2 unpack3 index0].

(** C6.  With a register as destination and operands that resolve to
    values [vb] and [vc] between 0 and 32767, [add] stores
    [(vb + vc) mod 32768] and [mult] stores [(vb * vc) mod 32768] in that
    register, and both stored values are between 0 and 32767. *)
Theorem add_mult_modulo (vm : VirtualMachine) (a b c vb vc : Z) :
  32768 <= a <= 32775 ->
  getValueOrReg b vm = Ok vb vm ->
  getValueOrReg c vm = Ok vc vm ->
  0 <= vb <= 32767 ->
  0 <= vc <= 32767 ->
  Add.exec [a; b; c] vm =
    Ok tt (set_registers
             (with_register (a - 32768) ((vb + vc) mod 32768) (_registers vm)) vm) /\
  Mult.exec [a; b; c] vm =
    Ok tt (set_registers
             (with_register (a - 32768) ((vb * vc) mod 32768) (_registers vm)) vm) /\
  register (a - 32768)
    (with_register (a - 32768) ((vb + vc) mod 32768) (_registers vm)) =
    (vb + vc) mod 32768 /\
  register (a - 32768)
    (with_register (a - 32768) ((vb * vc) mod 32768) (_registers vm)) =
    (vb * vc) mod 32768 /\
  0 <= (vb + vc) mod 32768 <= 32767 /\
  0 <= (vb * vc) mod 32768 <= 32767.
Proof.
  intros Ha Hb Hc Hvb Hvc.
  assert (E : 2 ^ 15 = 32768) by reflexivity.
  repeat split.
  - unfold Add.exec. monad_unfold. rewrite Hb, Hc, E.
    apply setRegister_valid; assumption.
  - unfold Mult.exec. monad_unfold. rewrite Hb, Hc, E.
    apply setRegister_valid; assumption.
  - apply register_with_register. lia.
  - apply register_with_register. lia.
  - apply Z.mod_pos_bound. lia.
  - pose proof (Z.mod_pos_bound (vb + vc) 32768). lia.
  - apply Z.mod_pos_bound. lia.
  - pose proof (Z.mod_pos_bound (vb * vc) 32768). lia.
Qed.

Lemma add_mult_modulo_witness :
  Add.exec [32768; 32767; 32769] sample_vm =
    Ok tt (set_registers
             (with_register 0 ((32767 + 12) mod 32768) (_registers sample_vm))
             sample_vm) /\
  Mult.exec [32768; 32767; 32769] sample_vm =
    Ok tt (set_registers
             (with_register 0 ((32767 * 12) mod 32768) (_registers sample_vm))
             sample_vm).
Proof.
  pose proof (add_mult_modulo sample_vm 32768 32767 32769 32767 12) as H.
  destruct H as [HA [HM _]]; try reflexivity; try lia.
  split; [exact HA | exact HM].
Defined.

(** ** [ret] *)

(** C3.  In the state [ret_image] reaches before its [ret], the stack
    holds 32768, r0 holds 32769 and r1 holds 14.  [Ret.incpc] resolves the
    popped word twice and moves to 14, where one resolution would give
    32769; the run then halts normally at the [halt] found at 14. *)
Theorem ret_resolves_twice :
  steps 4 (init ret_image []) = Ok tt before_ret /\
  Ret.incpc [] before_ret = Ok tt (set_pc 14 (set_stack [] before_ret)) /\
  ret_single_resolution before_ret =
    Ok tt (set_pc 32769 (set_stack [] before_ret)) /\
  main 6 ret_image [] = Some (0, []).
Proof. repeat split. Qed.

(** Whenever the popped word and its resolution both resolve, [Ret.incpc]
    removes exactly the top of the stack and moves to the second
    resolution. *)
Lemma ret_incpc_general (vm : VirtualMachine) (st : list Z) (v x y : Z) :
  _stack vm = st ++ [v] ->
  getValueOrReg v vm = Ok x vm ->
  getValueOrReg x vm = Ok y vm ->
  Ret.incpc [] vm = Ok tt (set_pc y (set_stack st vm)).
Proof.
  intros Hst Hv Hx. unfold Ret.incpc, pop. monad_unfold. rewrite Hst.
  destruct (st ++ [v]) as [|h t] eqn:E; [destruct st; discriminate E|].
  rewrite <- E. rewrite removelast_last, last_last.
  rewrite (getValueOrReg_registers_only v x vm (set_stack st vm) eq_refl Hv).
  rewrite (getValueOrReg_registers_only x y vm (set_stack st vm) eq_refl Hx).
  reflexivity.
Qed.

(** ** Scenario 4 *)

(** The first turn of the run of scenario 4 pushes 2 and jumps to 9, one
    word past the end of the image; the fetch of the second turn finds no
    bytes to unpack. *)
Lemma scenario4_run (fuel : nat) (input : list Z) :
  run (S (S fuel)) (init scenario4_image input) =
  Some (Raise StructError
          (set_pc 9 (set_stack [2] (init scenario4_image input)))).
Proof. reflexivity. Qed.

(** C4, as stated, fails: whatever the input and the number of turns
    allowed, the run of the image does not end normally with the output
    "A". *)
Lemma scenario4_does_not_print_A :
  ~ exists fuel input, main fuel scenario4_image input = Some (0, [65]).
Proof.
  intros [fuel [input H]].
  destruct fuel as [|[|fuel]].
  - discriminate H.
  - discriminate H.
  - unfold main in H. rewrite scenario4_run in H. discriminate H.
Qed.

(** C4, amended.  On the image [17, 9, 21, 21, 21, 19, 65, 18, 0] the
    [call] pushes 2 and transfers to address 9, which is outside the
    9-word image; the next fetch raises [struct.error], so the run ends
    with exit status -1, nothing written, the stack holding 2 and the
    program counter at 9. *)
Theorem scenario4_fails_at_fetch (fuel : nat) (input : list Z) :
  main (S (S fuel)) scenario4_image input = Some (-1, []) /\
  run (S (S fuel)) (init scenario4_image input) =
  Some (Raise StructError
          (set_pc 9 (set_stack [2] (init scenario4_image input)))).
Proof.
  split; [|apply scenario4_run].
  unfold main. rewrite scenario4_run. reflexivity.
Qed.

(** ** Fatal errors *)

Lemma run_raise (fuel : nat) (vm vm' : VirtualMachine) (e : exn) :
  running vm = true ->
  loop_body vm = Raise e vm' ->
  run (S fuel) vm = Some (Raise e vm').
Proof. intros Hr Hb. simpl. rewrite Hr, Hb. reflexivity. Qed.

Lemma loop_body_exec_raise (vm vm1 vm2 : VirtualMachine) (i : Instruction)
    (e : exn) :
  decode vm = Ok i vm1 ->
  exec i vm1 = Raise e vm2 ->
  loop_body vm = Raise e vm2.
Proof. intros Hd He. unfold loop_body, bind. rewrite Hd, He. reflexivity. Qed.

Lemma pop_empty (vm : VirtualMachine) :
  _stack vm = [] -> pop vm = Raise IndexError vm.
Proof. intros Hs. unfold pop. monad_unfold. rewrite Hs. reflexivity. Qed.

(** C9.  When the machine is running, its stack is empty and the
    instruction at the program counter decodes to [pop a], the effect of
    the instruction raises the [IndexError] of [list.pop] in an unchanged
    state; nothing catches it in [run], which ends with that exception,
    and a run that starts in this state exits with status -1. *)
Theorem pop_empty_stack_fatal (vm : VirtualMachine) (a : Z) (fuel : nat) :
  running vm = true ->
  _stack vm = [] ->
  decode vm = Ok (mkInstruction CPop [a]) vm ->
  Pop.exec [a] vm = Raise IndexError vm /\
  run (S fuel) vm = Some (Raise IndexError vm) /\
  (forall program input,
     init program input = vm ->
     main (S fuel) program input = Some (-1, sys_stdout vm)).
Proof.
  intros Hr Hs Hd.
  assert (He : Pop.exec [a] vm = Raise IndexError vm).
  { unfold Pop.exec. monad_unfold. rewrite (pop_empty vm Hs). reflexivity. }
  assert (Hb : loop_body vm = Raise IndexError vm).
  { apply (loop_body_exec_raise vm vm vm (mkInstruction CPop [a]));
      [exact Hd | exact He]. }
  repeat split.
  - exact He.
  - apply run_raise; assumption.
  - intros program input Hi. unfold main. rewrite Hi.
    rewrite (run_raise fuel vm vm IndexError Hr Hb). reflexivity.
Qed.

Lemma pop_empty_stack_fatal_witness :
  Pop.exec [32768] (init pop_image []) = Raise IndexError (init pop_image []) /\
  run 1 (init pop_image []) = Some (Raise IndexError (init pop_image [])) /\
  main 1 pop_image [] = Some (-1, []).
Proof.
  destruct (pop_empty_stack_fatal (init pop_image []) 32768 0)
    as [He [Hrun Hmain]]; try reflexivity.
  split; [exact He | split; [exact Hrun |]].
  apply (Hmain pop_image []). reflexivity.
Defined.

Lemma stdin_exhausted (vm : VirtualMachine) :
  _stdin vm = [] -> sys_stdin vm = [] -> stdin vm = Raise IndexError vm.
Proof.
  intros Hb Hs. destruct vm; simpl in *; subst.
  reflexivity.
Qed.

(** C10.  When the line buffer is empty and nothing is left on the
    standard input, reading a character raises [IndexError]; so does the
    effect of [in a], which leaves the machine as it was (no register is
    written, [running] is still set), and [run] ends with that
    exception rather than returning. *)
Theorem in_raises_at_end_of_input (vm : VirtualMachine) (a : Z) (fuel : nat) :
  running vm = true ->
  _stdin vm = [] ->
  sys_stdin vm = [] ->
  decode vm = Ok (mkInstruction CIn [a]) vm ->
  stdin vm = Raise IndexError vm /\
  In_.exec [a] vm = Raise IndexError vm /\
  run (S fuel) vm = Some (Raise IndexError vm).
Proof.
  intros Hr Hb Hs Hd.
  pose proof (stdin_exhausted vm Hb Hs) as Hin.
  assert (He : In_.exec [a] vm = Raise IndexError vm).
  { unfold In_.exec. monad_unfold. rewrite Hin. reflexivity. }
  repeat split; try assumption.
  apply run_raise; [assumption|].
  apply (loop_body_exec_raise vm vm vm (mkInstruction CIn [a]));
    [exact Hd | exact He].
Qed.

Lemma in_raises_at_end_of_input_witness :
  stdin (init in_image []) = Raise IndexError (init in_image []) /\
  In_.exec [32768] (init in_image []) = Raise IndexError (init in_image []) /\
  run 1 (init in_image []) = Some (Raise IndexError (init in_image [])).
Proof.
  apply (in_raises_at_end_of_input (init in_image []) 32768 0); reflexivity.
Defined.

(** ** Bytes and slices *)

Lemma byte_to_Z_bounds (b : byte) : 0 <= byte_to_Z b <= 255.
Proof.
  unfold byte_to_Z. pose proof (Byte.to_N_bounded b). lia.
Qed.

Lemma byte_to_of_Z (z : Z) : 0 <= z < 256 -> byte_to_Z (byte_of_Z z) = z.
Proof.
  intros Hz. unfold byte_to_Z, byte_of_Z.
  rewrite Z.mod_small by lia.
  destruct (Byte.of_N (Z.to_N z)) as [b|] eqn:E.
  - apply Byte.to_of_N in E. rewrite E. lia.
  - apply Byte.of_N_None_iff in E. lia.
Qed.

Lemma len_nonneg {A} (l : list A) : 0 <= len l.
Proof. unfold len. lia. Qed.

(** A slice with bounds [0 <= i <= j] is a prefix of a suffix, wherever
    the bounds fall with respect to the end of the sequence. *)
Lemma slice_nonneg {A} (l : list A) (i j : Z) :
  0 <= i <= j ->
  slice l i j = firstn (Z.to_nat (j - i)) (skipn (Z.to_nat i) l).
Proof.
  intros Hij. unfold slice, slice_index, len.
  destruct (Z.ltb_spec i 0); [lia|].
  destruct (Z.ltb_spec j 0); [lia|].
  destruct (Z_le_dec (Z.of_nat (length l)) i) as [Hi|Hi].
  - rewrite (skipn_all2 (n := Z.to_nat i)) by lia.
    rewrite skipn_all2 by lia.
    now rewrite !firstn_nil.
  - rewrite (Z.min_l i) by lia.
    destruct (Z_le_dec j (Z.of_nat (length l))) as [Hj|Hj].
    + rewrite (Z.min_l j) by lia. reflexivity.
    + rewrite (Z.min_r j) by lia.
      rewrite !firstn_all2; [reflexivity| |]; rewrite length_skipn; lia.
Qed.

Lemma slice_to_nonneg {A} (l : list A) (j : Z) :
  0 <= j -> slice_to l j = firstn (Z.to_nat j) l.
Proof.
  intros Hj. unfold slice_to. rewrite slice_nonneg by lia.
  rewrite Z.sub_0_r. reflexivity.
Qed.

Lemma slice_from_nonneg {A} (l : list A) (i : Z) :
  0 <= i -> slice_from l i = skipn (Z.to_nat i) l.
Proof.
  intros Hi. unfold slice_from, slice, slice_index.
  destruct (Z.ltb_spec i 0); [lia|].
  destruct (Z.ltb_spec (len l) 0); [pose proof (len_nonneg l); lia|].
  unfold len in *.
  destruct (Z_le_dec (Z.of_nat (length l)) i) as [Hl|Hl].
  - rewrite (skipn_all2 (n := Z.to_nat i)) by lia.
    rewrite skipn_all2 by lia. apply firstn_nil.
  - rewrite (Z.min_l i) by lia.
    apply firstn_all2. rewrite length_skipn. lia.
Qed.

(** Induction over a list two elements at a time. *)
Lemma list_pair_ind {A} (P : list A -> Prop) :
  P [] ->
  (forall x, P [x]) ->
  (forall x y l, P l -> P (x :: y :: l)) ->
  forall l, P l.
Proof.
  intros Hnil Hone Hstep l.
  assert (H : P l /\ forall x, P (x :: l)).
  { induction l as [|y l [IH1 IH2]]; split; auto. }
  apply H.
Qed.

Lemma words_of_bytes_length (bs : list byte) (n : nat) :
  length bs = (2 * n)%nat -> length (words_of_bytes bs) = n.
Proof.
  revert n. induction bs as [| x | x y l IH] using list_pair_ind; intros n Hn.
  - simpl in *. lia.
  - simpl in *. lia.
  - destruct n as [|n]; simpl in Hn; [lia|].
    simpl. f_equal. apply IH. lia.
Qed.

Lemma words_of_bytes_nth (bs : list byte) (i : nat) :
  (2 * i + 1 < length bs)%nat ->
  nth i (words_of_bytes bs) 0 =
  byte_to_Z (nth (2 * i) bs x00) + 256 * byte_to_Z (nth (2 * i + 1) bs x00).
Proof.
  revert i. induction bs as [| x | x y l IH] using list_pair_ind; intros i Hi.
  - simpl in Hi. lia.
  - simpl in Hi. lia.
  - destruct i as [|i].
    + reflexivity.
    + replace (2 * S i)%nat with (S (S (2 * i))) by lia.
      replace (S (S (2 * i)) + 1)%nat with (S (S (2 * i + 1))) by lia.
      simpl words_of_bytes. simpl nth. apply IH. simpl in Hi. lia.
Qed.

(** ** Memory reads *)

Lemma readMemory_in_range (vm : VirtualMachine) (address words : Z) :
  words <> 0 /\ words <= 32768 ->
  readMemory address words vm =
  match unpack_H words
          (slice (_memory vm) (address * 2) (address * 2 + 2 * words)) with
  | Some ws => Ok ws vm
  | None => Raise StructError vm
  end.
Proof.
  intros Hw. unfold readMemory. change (2 ^ 15) with 32768.
  destruct (Z.eqb_spec words 0); [lia|].
  rewrite Z.gtb_ltb. destruct (Z.ltb_spec 32768 words); [lia|].
  cbn [orb]. monad_unfold.
  destruct (unpack_H _ _); reflexivity.
Qed.

(** C8.  [readMemory] raises [InvalidReadError] exactly when the count is
    0 or greater than 32768, whatever the address.  With a count from 1 to
    32768 it never compares the address with the size of the image: when
    the words requested lie inside the image it returns them, [words]
    consecutive little-endian words starting at [address], and when they
    do not, the failure is the [struct.error] of unpacking a short
    buffer. *)
Theorem readMemory_spec (vm : VirtualMachine) (address words : Z) :
  ((exists vm', readMemory address words vm = Raise InvalidReadError vm') <->
   words = 0 \/ words > 32768) /\
  (1 <= words <= 32768 ->
   0 <= address ->
   2 * address + 2 * words <= len (_memory vm) ->
   exists ws,
     readMemory address words vm = Ok ws vm /\
     len ws = words /\
     forall i, 0 <= i < words ->
               nth (Z.to_nat i) ws 0 = word_at (_memory vm) (address + i)) /\
  (1 <= words <= 32768 ->
   0 <= address ->
   len (_memory vm) < 2 * address + 2 * words ->
   readMemory address words vm = Raise StructError vm).
Proof.
  split; [|split].
  - split.
    + intros [vm' H].
      destruct (Z.eq_dec words 0) as [|Hn]; [now left|].
      destruct (Z_le_dec words 32768) as [Hle|]; [|right; lia].
      rewrite readMemory_in_range in H by lia.
      destruct (unpack_H _ _); discriminate H.
    + intros H. exists vm. unfold readMemory. change (2 ^ 15) with 32768.
      destruct H as [H|H].
      * subst words. reflexivity.
      * replace (words >? 32768) with true by (symmetry; apply Z.gtb_lt; lia).
        rewrite orb_true_r. reflexivity.
  - intros Hw Ha Hlen.
    rewrite readMemory_in_range by lia.
    rewrite slice_nonneg by lia.
    set (buf := firstn _ _).
    assert (Hbuf : length buf = (2 * Z.to_nat words)%nat).
    { unfold buf. rewrite length_firstn, length_skipn. unfold len in Hlen. lia. }
    unfold unpack_H.
    replace ((0 <=? words) && (len buf =? 2 * words)) with true.
    2:{ symmetry. apply andb_true_iff. split; [apply Z.leb_le; lia|].
        apply Z.eqb_eq. unfold len. lia. }
    exists (words_of_bytes buf). split; [reflexivity|]. split.
    + unfold len. rewrite (words_of_bytes_length buf (Z.to_nat words) Hbuf). lia.
    + intros i Hi. rewrite words_of_bytes_nth by lia.
      unfold word_at, buf. unfold len in Hlen.
      rewrite !nth_firstn.
      destruct (Nat.ltb_spec (2 * Z.to_nat i)
                  (Z.to_nat (address * 2 + 2 * words - address * 2))); [|lia].
      destruct (Nat.ltb_spec (2 * Z.to_nat i + 1)
                  (Z.to_nat (address * 2 + 2 * words - address * 2))); [|lia].
      rewrite !nth_skipn.
      do 2 f_equal; [|f_equal]; f_equal; lia.
  - intros Hw Ha Hlen.
    rewrite readMemory_in_range by lia.
    rewrite slice_nonneg by lia.
    unfold unpack_H.
    replace (len _ =? 2 * words) with false; [now rewrite andb_false_r|].
    symmetry. apply Z.eqb_neq. unfold len in *.
    rewrite length_firstn, length_skipn. lia.
Qed.

Lemma readMemory_spec_witness :
  (exists ws,
     readMemory 1 2 sample_vm = Ok ws sample_vm /\
     len ws = 2 /\
     forall i, 0 <= i < 2 ->
               nth (Z.to_nat i) ws 0 = word_at (_memory sample_vm) (1 + i)) /\
  readMemory 3 2 sample_vm = Raise StructError sample_vm.
Proof.
  split.
  - apply (proj1 (proj2 (readMemory_spec sample_vm 1 2)));
      [lia | lia | vm_compute; discriminate].
  - apply (proj2 (proj2 (readMemory_spec sample_vm 3 2)));
      [lia | lia | reflexivity].
Defined.

(** ** Memory writes *)

Lemma pack_unpack (v : Z) :
  0 <= v <= 65535 ->
  words_of_bytes [byte_of_Z (v mod 256); byte_of_Z (v / 256)] = [v].
Proof.
  intros Hv. cbn [words_of_bytes].
  pose proof (Z.mod_pos_bound v 256 ltac:(lia)).
  assert (0 <= v / 256 < 256)
    by (split; [apply Z.div_pos; lia | apply Z.div_lt_upper_bound; lia]).
  rewrite !byte_to_of_Z by assumption.
  f_equal. pose proof (Z.div_mod v 256 ltac:(lia)). lia.
Qed.

Lemma writeMemory_in_extent (vm : VirtualMachine) (addr v : Z) :
  0 <= addr ->
  0 <= v <= 65535 ->
  writeMemory addr v vm =
  Ok tt (set_memory
           (firstn (Z.to_nat (addr * 2)) (_memory vm) ++
            [byte_of_Z (v mod 256); byte_of_Z (v / 256)] ++
            skipn (Z.to_nat (addr * 2 + 2)) (_memory vm)) vm).
Proof.
  intros Ha Hv. unfold writeMemory, pack_H. monad_unfold.
  replace ((0 <=? v) && (v <=? 65535)) with true
    by (symmetry; apply andb_true_iff; split; apply Z.leb_le; lia).
  rewrite slice_to_nonneg, slice_from_nonneg by lia. reflexivity.
Qed.

Lemma writeMemory_unrepresentable (vm : VirtualMachine) (addr v : Z) :
  ~ 0 <= v <= 65535 -> writeMemory addr v vm = Raise StructError vm.
Proof.
  intros Hv. unfold writeMemory, pack_H. monad_unfold.
  replace ((0 <=? v) && (v <=? 65535)) with false; [reflexivity|].
  symmetry. apply andb_false_iff.
  destruct (Z.leb_spec 0 v); [right; apply Z.leb_gt; lia | now left].
Qed.

(** Reading back the word just written, inside the extent of the
    memory. *)
Lemma read_after_write (vm : VirtualMachine) (mem : list byte) (addr v : Z) :
  0 <= addr ->
  2 * addr + 2 <= len mem ->
  0 <= v <= 65535 ->
  _memory vm =
    firstn (Z.to_nat (addr * 2)) mem ++
    [byte_of_Z (v mod 256); byte_of_Z (v / 256)] ++
    skipn (Z.to_nat (addr * 2 + 2)) mem ->
  readMemory addr 1 vm = Ok [v] vm.
Proof.
  intros Ha Hlen Hv Hmem. unfold len in Hlen.
  rewrite readMemory_in_range by lia.
  rewrite slice_nonneg by lia. rewrite Hmem.
  rewrite skipn_app, length_firstn.
  rewrite (skipn_all2 (n := Z.to_nat (addr * 2))) by (rewrite length_firstn; lia).
  replace (Z.to_nat (addr * 2) - Nat.min (Z.to_nat (addr * 2)) (length mem))%nat
    with 0%nat by lia.
  replace (Z.to_nat (addr * 2 + 2 * 1 - addr * 2)) with 2%nat by lia.
  cbn [app skipn firstn]. unfold unpack_H. cbn [len length].
  cbn [Z.of_nat Z.leb Z.eqb andb Z.mul Z.compare Pos.of_succ_nat Pos.succ
       Pos.mul Pos.eqb Pos.compare Pos.compare_cont].
  rewrite pack_unpack by assumption. reflexivity.
Qed.

(** C7, as stated, fails: after [in] has read the character of code
    128512 into register 0, the image goes on with [wmem 7 r0], whose
    address 7 is inside the 9-word memory and whose operand resolves to
    128512; [struct.pack] refuses the value, so the write raises
    [struct.error], the run ends there, and no following [rmem] leaves
    128512 in a register. *)
Lemma wmem_rejects_large_value :
  reachable (init big_char_image [128512; 10]) after_big_char /\
  decode after_big_char = Ok (mkInstruction CWmem [7; 32768]) after_big_char /\
  getValueOrReg 7 after_big_char = Ok 7 after_big_char /\
  2 * 7 + 2 <= len (_memory after_big_char) /\
  getValueOrReg 32768 after_big_char = Ok 128512 after_big_char /\
  Wmem.exec [7; 32768] after_big_char = Raise StructError after_big_char /\
  run 3 (init big_char_image [128512; 10]) =
    Some (Raise StructError after_big_char) /\
  ~ (exists vm1 vm1' vm2,
       Wmem.exec [7; 32768] after_big_char = Ok tt vm1 /\
       incpc (mkInstruction CWmem [7; 32768]) vm1 = Ok tt vm1' /\
       Rmem.exec [32769; 7] vm1' = Ok tt vm2 /\
       register (32769 - 32768) (_registers vm2) = 128512).
Proof.
  split; [|repeat split].
  - eapply reachable_turn; [apply reachable_start | |]; reflexivity.
  - vm_compute. discriminate.
  - intros (vm1 & vm1' & vm2 & H & _). discriminate H.
Qed.

(** C7, amended.  Let [a] resolve to an address inside the memory, [b] to
    a value [v], [c] be a register and [a'] resolve to the same address as
    [a].  When [v] fits the 16 bits of a memory word, [wmem a b], the
    advance of the program counter and [rmem c a'] all succeed and leave
    [v] in register [c]; a value that does not fit, which a register can
    hold after [in] has read a character of code above 65535, makes the
    write fail with [struct.error], and is the only way it can fail. *)
Theorem wmem_rmem_round_trip (vm : VirtualMachine) (a b a' c addr v : Z) :
  getValueOrReg a vm = Ok addr vm ->
  getValueOrReg b vm = Ok v vm ->
  getValueOrReg a' vm = Ok addr vm ->
  0 <= addr ->
  2 * addr + 2 <= len (_memory vm) ->
  32768 <= c <= 32775 ->
  (0 <= v <= 65535 ->
   exists vm1 vm1' vm2,
     Wmem.exec [a; b] vm = Ok tt vm1 /\
     incpc (mkInstruction CWmem [a; b]) vm1 = Ok tt vm1' /\
     Rmem.exec [c; a'] vm1' = Ok tt vm2 /\
     register (c - 32768) (_registers vm2) = v) /\
  (~ 0 <= v <= 65535 -> Wmem.exec [a; b] vm = Raise StructError vm).
Proof.
  intros Ha Hb Ha' Haddr Hlen Hc. split.
  - intros Hv.
    eexists; eexists; eexists. split; [|split; [|split]].
    + unfold Wmem.exec. monad_unfold. rewrite Ha, Hb.
      apply writeMemory_in_extent; assumption.
    + reflexivity.
    + unfold Rmem.exec. monad_unfold.
      match goal with
      | |- context [getValueOrReg a' ?s] =>
          rewrite (getValueOrReg_registers_only a' addr vm s eq_refl Ha');
          rewrite (read_after_write s (_memory vm) addr v Haddr Hlen Hv eq_refl)
      end.
      apply setRegister_valid. assumption.
    + cbn [_registers set_registers]. apply register_with_register. lia.
  - intros Hv. unfold Wmem.exec. monad_unfold. rewrite Ha, Hb.
    apply writeMemory_unrepresentable. assumption.
Qed.

Lemma wmem_rmem_round_trip_witness :
  exists vm1 vm1' vm2,
    Wmem.exec [2; 32769] sample_vm = Ok tt vm1 /\
    incpc (mkInstruction CWmem [2; 32769]) vm1 = Ok tt vm1' /\
    Rmem.exec [32775; 2] vm1' = Ok tt vm2 /\
    register (32775 - 32768) (_registers vm2) = 12.
Proof.
  apply (proj1 (wmem_rmem_round_trip sample_vm 2 32769 2 32775 2 12
                  eq_refl eq_refl eq_refl ltac:(lia)
                  ltac:(vm_compute; discriminate) ltac:(lia))).
  lia.
Defined.

(** ** The range of the registers *)

Lemma registers_within_fields (P : Z -> Prop) (rs : Registers) :
  registers_within P rs <->
  P (r0 rs) /\ P (r1 rs) /\ P (r2 rs) /\ P (r3 rs) /\
  P (r4 rs) /\ P (r5 rs) /\ P (r6 rs) /\ P (r7 rs).
Proof.
  split.
  - intros H.
    repeat split;
      first [ apply (H 0) | apply (H 1) | apply (H 2) | apply (H 3)
            | apply (H 4) | apply (H 5) | apply (H 6) | apply (H 7) ]; lia.
  - intros (H0 & H1 & H2 & H3 & H4 & H5 & H6 & H7) i Hi.
    assert (C : i = 0 \/ i = 1 \/ i = 2 \/ i = 3 \/
                i = 4 \/ i = 5 \/ i = 6 \/ i = 7) by lia.
    repeat (destruct C as [C | C]); subst i; assumption.
Qed.

Lemma registers_within_with_register (P : Z -> Prop) (i v : Z)
    (rs : Registers) :
  registers_within P rs -> P v -> registers_within P (with_register i v rs).
Proof.
  intros Hrs Hv.
  apply registers_within_fields in Hrs.
  destruct Hrs as (H0 & H1 & H2 & H3 & H4 & H5 & H6 & H7).
  apply registers_within_fields.
  destruct i as [|p|p]; [simpl; tauto | | simpl; tauto].
  do 3 (destruct p as [p|p|]; try (simpl; tauto)).
Qed.

(** C2, as stated, fails: after the first turn of the run of
    [15, 32768, 3, 40000] register 0 holds the memory word 40000, which
    [rmem] copied as it is. *)
Lemma rmem_stores_raw_word :
  reachable (init rmem_image []) after_rmem /\
  register 0 (_registers after_rmem) = 40000 /\
  ~ registers_within word (_registers after_rmem).
Proof.
  split; [|split].
  - apply (reachable_turn _ (init rmem_image [])).
    + apply reachable_start.
    + reflexivity.
    + reflexivity.
  - reflexivity.
  - intros H. specialize (H 0 ltac:(lia)). unfold word in H. simpl in H. lia.
Qed.

(** *** Bounds of the values an instruction stores *)

Lemma word_is_word16 (x : Z) : word x -> word16 x.
Proof. unfold word, word16. lia. Qed.

Lemma words_of_bytes_word16 (bs : list byte) : Forall word16 (words_of_bytes bs).
Proof.
  induction bs as [| x | x y l IH] using list_pair_ind;
    cbn [words_of_bytes]; constructor; [|exact IH].
  unfold word16.
  pose proof (byte_to_Z_bounds x). pose proof (byte_to_Z_bounds y). lia.
Qed.

Lemma below_pow2_log2 (x : Z) : 0 <= x -> (x < 2 ^ 16 <-> Z.log2 x < 16).
Proof.
  intros Hx. destruct (Z.eq_dec x 0) as [->|Hn].
  - simpl. split; intros _; reflexivity.
  - apply Z.log2_lt_pow2. lia.
Qed.

Lemma word16_log2 (x : Z) : word16 x -> Z.log2 x < 16.
Proof.
  unfold word16. intros Hx.
  apply below_pow2_log2; [|change (2 ^ 16) with 65536]; lia.
Qed.

Lemma word16_land (x y : Z) : word16 x -> word16 y -> word16 (Z.land x y).
Proof.
  intros Hx Hy.
  pose proof (word16_log2 x Hx) as Hlx. unfold word16 in *.
  assert (Hnn : 0 <= Z.land x y) by (apply Z.land_nonneg; lia).
  split; [exact Hnn|].
  assert (Z.land x y < 2 ^ 16); [|change (2 ^ 16) with 65536 in *; lia].
  apply below_pow2_log2; [exact Hnn|].
  pose proof (Z.log2_land x y ltac:(lia) ltac:(lia)). lia.
Qed.

Lemma word16_lor (x y : Z) : word16 x -> word16 y -> word16 (Z.lor x y).
Proof.
  intros Hx Hy.
  pose proof (word16_log2 x Hx) as Hlx. pose proof (word16_log2 y Hy) as Hly.
  unfold word16 in *.
  assert (Hnn : 0 <= Z.lor x y) by (apply Z.lor_nonneg; lia).
  split; [exact Hnn|].
  assert (Z.lor x y < 2 ^ 16); [|change (2 ^ 16) with 65536 in *; lia].
  apply below_pow2_log2; [exact Hnn|].
  rewrite Z.log2_lor by lia. lia.
Qed.

Lemma word_land_mask (x : Z) : word (Z.land x 32767).
Proof.
  change 32767 with (Z.ones 15). rewrite Z.land_ones by lia.
  unfold word. pose proof (Z.mod_pos_bound x (2 ^ 15) ltac:(lia)).
  change (2 ^ 15) with 32768 in *. lia.
Qed.

Lemma word_mod_pow (x : Z) : word (x mod 2 ^ 15).
Proof.
  unfold word. pose proof (Z.mod_pos_bound x (2 ^ 15) ltac:(lia)).
  change (2 ^ 15) with 32768 in *. lia.
Qed.

Lemma word16_mod (x y : Z) : word16 x -> word16 y -> y <> 0 -> word16 (x mod y).
Proof.
  unfold word16. intros Hx Hy Hn.
  pose proof (Z.mod_pos_bound x y ltac:(lia)). lia.
Qed.

Lemma readline_word16 (src : list Z) :
  Forall word16 src ->
  Forall word16 (fst (readline src)) /\ Forall word16 (snd (readline src)).
Proof.
  induction 1 as [|c rest Hc Hrest [IH1 IH2]]; simpl.
  - split; constructor.
  - destruct (c =? 10).
    + simpl. split; [constructor; [assumption | constructor] | assumption].
    + destruct (readline rest) as [line rest']. simpl in *.
      split; [constructor; assumption | assumption].
Qed.

(** *** The methods keep the invariant *)

Ltac invariant_of H :=
  destruct H; constructor; cbn; auto.

Lemma keeps_pure {A} (a : A) (Q : A -> Prop) : Q a -> keeps (pure a) Q.
Proof. intros Ha vm Hinv. cbn. auto. Qed.

Lemma keeps_raise {A} (e : exn) (Q : A -> Prop) : keeps (raise e) Q.
Proof. intros vm Hinv. exact Hinv. Qed.

Lemma keeps_bind {A B} (m : M A) (k : A -> M B) (Q : A -> Prop)
    (R : B -> Prop) :
  keeps m Q -> (forall a, Q a -> keeps (k a) R) -> keeps (bind m k) R.
Proof.
  intros Hm Hk vm Hinv. unfold bind. specialize (Hm vm Hinv).
  destruct (m vm) as [a vm'|e vm'].
  - destruct Hm as [Hinv' Ha]. apply (Hk a Ha vm' Hinv').
  - exact Hm.
Qed.

Lemma keeps_get {A} (f : VirtualMachine -> A) :
  keeps (get f) (fun _ => True).
Proof. intros vm Hinv. cbn. auto. Qed.

Lemma keeps_modify (f : VirtualMachine -> VirtualMachine) :
  (forall vm, invariant vm -> invariant (f vm)) ->
  keeps (modify f) (fun _ => True).
Proof. intros Hf vm Hinv. cbn. auto. Qed.

Lemma keeps_set_pc (v : Z) : keeps (modify (set_pc v)) (fun _ => True).
Proof. apply keeps_modify. intros vm H. invariant_of H. Qed.

Lemma keeps_getValueOrReg (w : Z) : keeps (getValueOrReg w) word16.
Proof.
  intros vm Hinv.
  destruct (Z_le_dec 0 w) as [H0|H0]; [destruct (Z_le_dec w 32767) as [H1|H1]|].
  - rewrite getValueOrReg_literal by lia.
    split; [exact Hinv | unfold word16; lia].
  - destruct (Z_le_dec w 32775) as [H2|H2].
    + rewrite getValueOrReg_register by lia. split; [exact Hinv|].
      apply (inv_registers vm Hinv). lia.
    + rewrite getValueOrReg_invalid by lia. exact Hinv.
  - rewrite getValueOrReg_invalid by lia. exact Hinv.
Qed.

Lemma keeps_setRegister (reg v : Z) :
  word16 v -> keeps (setRegister reg v) (fun _ => True).
Proof.
  intros Hv vm Hinv.
  destruct (Z_le_dec 32768 reg) as [H0|H0];
    [destruct (Z_le_dec reg 32775) as [H1|H1]|].
  - rewrite setRegister_valid by lia. split; [|exact I].
    pose proof (registers_within_with_register word16 (reg - 32768) v
                  (_registers vm) (inv_registers vm Hinv) Hv).
    invariant_of Hinv.
  - rewrite setRegister_invalid by lia. exact Hinv.
  - rewrite setRegister_invalid by lia. exact Hinv.
Qed.

Lemma keeps_push (v : Z) : keeps (push v) (fun _ => True).
Proof. apply keeps_modify. intros vm H. invariant_of H. Qed.

Lemma keeps_pop : keeps pop (fun _ => True).
Proof.
  intros vm Hinv. unfold pop. monad_unfold.
  destruct (_stack vm); [exact Hinv|].
  split; [invariant_of Hinv | exact I].
Qed.

Lemma keeps_stdin : keeps stdin word16.
Proof.
  intros vm Hinv. unfold stdin. monad_unfold.
  destruct (_stdin vm) as [|c buf] eqn:Hbuf.
  - pose proof (readline_word16 (sys_stdin vm) (inv_input vm Hinv)) as [Hl Hr].
    destruct (readline (sys_stdin vm)) as [line rest]. cbn in Hl, Hr |- *.
    destruct line as [|c line]; cbn.
    + invariant_of Hinv.
    + inversion Hl; subst. split; [invariant_of Hinv | assumption].
  - cbn. rewrite Hbuf.
    pose proof (inv_buffer vm Hinv) as Hb. rewrite Hbuf in Hb.
    inversion Hb; subst. split; [invariant_of Hinv | assumption].
Qed.

(** Whatever is read from memory is made of 16-bit words. *)
Lemma keeps_readMemory (address words : Z) :
  keeps (readMemory address words) (Forall word16).
Proof.
  intros vm Hinv. unfold readMemory. monad_unfold.
  destruct (_ || _); [exact Hinv|].
  unfold unpack_H. destruct (_ && _); [|exact Hinv].
  split; [exact Hinv | apply words_of_bytes_word16].
Qed.

Lemma keeps_writeMemory (address data : Z) :
  keeps (writeMemory address data) (fun _ => True).
Proof.
  intros vm Hinv. unfold writeMemory. monad_unfold.
  destruct (pack_H data); [|exact Hinv].
  split; [invariant_of Hinv | exact I].
Qed.

Lemma keeps_chr (v : Z) : keeps (chr v) (fun _ => True).
Proof.
  intros vm Hinv. unfold chr.
  destruct (_ || _); [exact Hinv|].
  destruct (_ || _); [exact Hinv|]. split; [exact Hinv | exact I].
Qed.

Lemma keeps_stdout_write (c : Z) : keeps (stdout_write c) (fun _ => True).
Proof.
  unfold stdout_write. destruct (_ && _); [apply keeps_raise|].
  apply keeps_modify. intros vm H. invariant_of H.
Qed.

Lemma keeps_unpack2 (args : list Z) : keeps (unpack2 args) (fun _ => True).
Proof.
  intros vm Hinv. unfold unpack2.
  destruct args as [|a [|b [|c args]]]; cbn; auto.
Qed.

Lemma keeps_unpack3 (args : list Z) : keeps (unpack3 args) (fun _ => True).
Proof.
  intros vm Hinv. unfold unpack3.
  destruct args as [|a [|b [|c [|d args]]]]; cbn; auto.
Qed.

Lemma keeps_index0 (P : Z -> Prop) (args : list Z) :
  Forall P args -> keeps (index0 args) P.
Proof.
  intros HP vm Hinv. unfold index0.
  destruct args as [|a args]; cbn; [exact Hinv|].
  inversion HP; subst. auto.
Qed.

Lemma keeps_index0_any (args : list Z) : keeps (index0 args) (fun _ => True).
Proof. apply keeps_index0. apply Forall_forall. intros; exact I. Qed.

Lemma keeps_default_incpc (c : opclass) :
  keeps (default_incpc c) (fun _ => True).
Proof.
  unfold default_incpc. eapply keeps_bind; [apply keeps_get|].
  intros pc _. apply keeps_set_pc.
Qed.

(** *** The instructions keep the invariant *)

Ltac word_side :=
  first [ assumption
        | apply word_is_word16, word_mod_pow
        | apply word_is_word16, word_land_mask
        | apply word16_land; assumption
        | apply word16_lor; assumption
        | apply word16_mod; [assumption | assumption | apply Z.eqb_neq; assumption]
        | unfold word16; lia ].

Ltac keeps_prim :=
  first [ apply keeps_getValueOrReg
        | apply keeps_pop
        | apply keeps_stdin
        | apply keeps_unpack2
        | apply keeps_unpack3
        | apply keeps_readMemory
        | apply keeps_index0; eassumption
        | apply keeps_index0_any
        | apply keeps_get
        | apply keeps_chr
        | apply keeps_push
        | apply keeps_stdout_write
        | apply keeps_set_pc
        | apply keeps_default_incpc
        | apply keeps_raise
        | apply keeps_pure; exact I
        | apply keeps_setRegister; word_side
        | apply keeps_writeMemory
        | apply keeps_modify; intros ? Hinv; invariant_of Hinv ].

Ltac keeps_step :=
  lazymatch goal with
  | |- keeps (bind _ _) _ => eapply keeps_bind; [keeps_prim | intros ? ?]
  | |- keeps (match ?p with _ => _ end) _ => destruct p eqn:?
  | |- _ => keeps_prim
  end.

Lemma keeps_exec (i : Instruction) : keeps (exec i) (fun _ => True).
Proof.
  destruct i as [c args].
  destruct c; cbn [exec cls _args];
    unfold Halt.exec, Set_.exec, Push.exec, Pop.exec, Eq.exec, Gt.exec,
      Jmp.exec, Jt.exec, Jf.exec, Add.exec, Mult.exec, Mod.exec, And.exec,
      Or.exec, Not.exec, Rmem.exec, Wmem.exec, Call.exec, Ret.exec, Out.exec,
      In_.exec, Noop.exec;
    repeat keeps_step.
Qed.

Lemma keeps_incpc (i : Instruction) : keeps (incpc i) (fun _ => True).
Proof.
  destruct i as [c args].
  destruct c; cbn [incpc cls _args];
    unfold Jmp.incpc, Jt.incpc, Jf.incpc, Call.incpc, Ret.incpc;
    repeat keeps_step.
Qed.

Lemma keeps_new_instruction (c : opclass) (args : list Z) :
  keeps (new_instruction c args) (fun _ => True).
Proof. unfold new_instruction. repeat keeps_step. Qed.

Lemma keeps_decode : keeps decode (fun _ => True).
Proof.
  unfold decode.
  eapply keeps_bind; [apply keeps_get | intros pc _].
  eapply keeps_bind; [apply keeps_readMemory | intros ws _].
  eapply keeps_bind; [apply keeps_index0_any | intros opcode _].
  destruct (registry opcode) as [instruction|]; [|apply keeps_raise].
  destruct (negb _); [|apply keeps_new_instruction].
  eapply keeps_bind; [apply keeps_get | intros pc' _].
  eapply keeps_bind; [apply keeps_readMemory | intros args _].
  apply keeps_new_instruction.
Qed.

Lemma keeps_loop_body : keeps loop_body (fun _ => True).
Proof.
  unfold loop_body.
  eapply keeps_bind; [apply keeps_decode | intros i _].
  eapply keeps_bind; [apply keeps_exec | intros _ _].
  apply keeps_incpc.
Qed.

Lemma invariant_init (program : list byte) (input : list Z) :
  Forall word16 input -> invariant (init program input).
Proof.
  intros Hin. constructor; cbn.
  - apply registers_within_fields. cbn. unfold word16. lia.
  - constructor.
  - exact Hin.
Qed.

Lemma reachable_invariant (vm0 vm : VirtualMachine) :
  invariant vm0 -> reachable vm0 vm -> invariant vm.
Proof.
  intros H0 Hreach.
  induction Hreach as [|vm vm' _ IH Hrun Hbody]; [exact H0|].
  pose proof (keeps_loop_body vm IH) as Hk. rewrite Hbody in Hk. apply Hk.
Qed.

(** C2, amended.  Whatever the image, when every character code of the
    input is between 0 and 65535, each of the 8 registers holds an integer
    between 0 and 65535 in every state the run goes through from the
    initial state, and also in the state left by a turn that ends with an
    exception: a register can hold any raw 16-bit word, since [rmem]
    stores the memory word as it is. *)
Theorem registers_stay_16_bit (program : list byte) (input : list Z)
    (vm : VirtualMachine) :
  Forall word16 input ->
  reachable (init program input) vm ->
  registers_within word16 (_registers vm) /\
  registers_within word16 (_registers (final (loop_body vm))).
Proof.
  intros Hin Hreach.
  pose proof (reachable_invariant _ vm (invariant_init program input Hin) Hreach)
    as Hinv.
  split; [apply (inv_registers vm Hinv)|].
  pose proof (keeps_loop_body vm Hinv) as Hk.
  destruct (loop_body vm) as [u vm'|e vm']; cbn.
  - apply (inv_registers vm'), Hk.
  - apply (inv_registers vm' Hk).
Qed.

Lemma after_in_rmem_add_reachable :
  reachable (init in_rmem_add_image [97; 10]) after_in_rmem_add.
Proof.
  eapply reachable_turn;
    [eapply reachable_turn;
     [eapply reachable_turn; [apply reachable_start | |] | |] | |];
    reflexivity.
Qed.

Lemma registers_stay_16_bit_witness :
  registers_within word16 (_registers after_in_rmem_add).
Proof.
  apply (registers_stay_16_bit in_rmem_add_image [97; 10] after_in_rmem_add).
  - repeat constructor; unfold word16; lia.
  - exact after_in_rmem_add_reachable.
Defined.

(** * Further properties of the interpreter *)

(** ** The stack *)

Lemma set_stack_same (vm : VirtualMachine) (st : list Z) :
  set_stack (_stack vm) (set_stack st vm) = vm.
Proof. destruct vm; reflexivity. Qed.

Lemma pop_last (vm : VirtualMachine) (st : list Z) (v : Z) :
  _stack vm = st ++ [v] -> pop vm = Ok v (set_stack st vm).
Proof.
  intros Hst. unfold pop. monad_unfold. rewrite Hst.
  destruct (st ++ [v]) as [|h t] eqn:E; [destruct st; discriminate E|].
  rewrite <- E. rewrite removelast_last, last_last. reflexivity.
Qed.

(** X1.  [pop] after [push v] returns [v] and leaves the machine exactly as
    it was before the push; after two pushes the values come back in the
    reverse order. *)
Theorem push_pop_round_trip (vm : VirtualMachine) (v w : Z) :
  (push v ;; pop) vm = Ok v vm /\
  (push v ;; push w ;; x <- pop ;; y <- pop ;; pure (x, y)) vm = Ok (w, v) vm.
Proof.
  assert (H1 : forall s u, (push u ;; pop) s = Ok u s).
  { intros s u. unfold bind at 1. unfold push at 1, modify.
    rewrite (pop_last _ (_stack s) u) by reflexivity.
    f_equal. apply set_stack_same. }
  split; [apply H1|].
  unfold bind at 1. unfold push at 1, modify.
  unfold bind at 1. unfold push at 1, modify.
  unfold bind at 1.
  rewrite (pop_last _ (_stack vm ++ [v]) w) by reflexivity.
  unfold bind at 1.
  rewrite (pop_last _ (_stack vm) v) by reflexivity.
  unfold pure. f_equal. destruct vm; reflexivity.
Qed.

(** ** The register bank *)

(** X2.  After [setRegister reg v] on a register, resolving a register
    operand gives [v] for the register written and the previous value for
    every other register; nothing but the bank changes. *)
Theorem setRegister_then_resolve (vm : VirtualMachine) (reg reg' v : Z) :
  32768 <= reg <= 32775 ->
  32768 <= reg' <= 32775 ->
  exists vm',
    setRegister reg v vm = Ok tt vm' /\
    getValueOrReg reg' vm' =
      Ok (if reg' =? reg then v else register (reg' - 32768) (_registers vm))
         vm' /\
    running vm' = running vm /\ _memory vm' = _memory vm /\
    _stack vm' = _stack vm /\ _pc vm' = _pc vm /\ _stdin vm' = _stdin vm /\
    sys_stdin vm' = sys_stdin vm /\ sys_stdout vm' = sys_stdout vm.
Proof.
  intros Hr Hr'. register_cases reg; register_cases reg';
    (eexists; split; [reflexivity | repeat split]).
Qed.

Lemma setRegister_then_resolve_witness :
  exists vm',
    setRegister 32770 99 sample_vm = Ok tt vm' /\
    getValueOrReg 32771 vm' =
      Ok (if 32771 =? 32770 then 99
          else register (32771 - 32768) (_registers sample_vm)) vm' /\
    running vm' = running sample_vm /\ _memory vm' = _memory sample_vm /\
    _stack vm' = _stack sample_vm /\ _pc vm' = _pc sample_vm /\
    _stdin vm' = _stdin sample_vm /\
    sys_stdin vm' = sys_stdin sample_vm /\ sys_stdout vm' = sys_stdout sample_vm.
Proof.
  apply (setRegister_then_resolve sample_vm 32770 32771 99); lia.
Defined.

(** X3.  [set a b] with a register [a] and an operand [b] that resolves to
    [v] succeeds, and afterwards [a] resolves to [v], also when [b] is the
    register [a] itself. *)
Theorem set_then_resolve (vm : VirtualMachine) (a b v : Z) :
  32768 <= a <= 32775 ->
  getValueOrReg b vm = Ok v vm ->
  exists vm',
    Set_.exec [a; b] vm = Ok tt vm' /\
    getValueOrReg a vm' = Ok v vm'.
Proof.
  intros Ha Hb. eexists. split.
  - unfold Set_.exec. monad_unfold. rewrite Hb.
    apply setRegister_valid. exact Ha.
  - rewrite getValueOrReg_register by exact Ha.
    cbn [_registers set_registers].
    rewrite register_with_register by lia. reflexivity.
Qed.

Lemma set_then_resolve_witness :
  exists vm',
    Set_.exec [32768; 32769] sample_vm = Ok tt vm' /\
    getValueOrReg 32768 vm' = Ok 12 vm'.
Proof.
  apply (set_then_resolve sample_vm 32768 32769 12); [lia | reflexivity].
Defined.

(** ** Bitwise instructions and remainders *)

Lemma lnot_mask (v : Z) :
  0 <= v <= 32767 -> Z.land (Z.lnot v) 32767 = 32767 - v.
Proof.
  intros Hv. change 32767 with (Z.ones 15) at 1.
  rewrite Z.land_ones by lia. change (2 ^ 15) with 32768.
  unfold Z.lnot. symmetry.
  apply (Z.mod_unique (Z.pred (- v)) 32768 (-1) (32767 - v)); lia.
Qed.

(** X4.  For an operand that resolves to a word [vb] between 0 and 32767,
    [not a b] stores [32767 - vb], the complement on 15 bits, which is
    again between 0 and 32767. *)
Theorem not_is_15_bit_complement (vm : VirtualMachine) (a b vb : Z) :
  32768 <= a <= 32775 ->
  getValueOrReg b vm = Ok vb vm ->
  0 <= vb <= 32767 ->
  Not.exec [a; b] vm =
    Ok tt (set_registers
             (with_register (a - 32768) (32767 - vb) (_registers vm)) vm) /\
  0 <= 32767 - vb <= 32767.
Proof.
  intros Ha Hb Hvb. split; [|lia].
  unfold Not.exec. monad_unfold. rewrite Hb, lnot_mask by exact Hvb.
  apply setRegister_valid. exact Ha.
Qed.

Lemma not_is_15_bit_complement_witness :
  Not.exec [32775; 32768] sample_vm =
    Ok tt (set_registers
             (with_register (32775 - 32768) (32767 - 11) (_registers sample_vm))
             sample_vm) /\
  0 <= 32767 - 11 <= 32767.
Proof.
  apply (not_is_15_bit_complement sample_vm 32775 32768 11);
    [lia | reflexivity | lia].
Defined.

Lemma below_pow2_15 (x : Z) : 0 <= x -> (x < 2 ^ 15 <-> Z.log2 x < 15).
Proof.
  intros Hx. destruct (Z.eq_dec x 0) as [->|Hn].
  - simpl. split; intros _; reflexivity.
  - apply Z.log2_lt_pow2. lia.
Qed.

Lemma word_log2 (x : Z) : word x -> Z.log2 x < 15.
Proof.
  unfold word. intros Hx.
  apply below_pow2_15; [|change (2 ^ 15) with 32768]; lia.
Qed.

Lemma word_land (x y : Z) : word x -> word y -> word (Z.land x y).
Proof.
  intros Hx Hy. pose proof (word_log2 x Hx) as Hlx. unfold word in *.
  assert (Hnn : 0 <= Z.land x y) by (apply Z.land_nonneg; lia).
  split; [exact Hnn|].
  assert (Z.land x y < 2 ^ 15); [|change (2 ^ 15) with 32768 in *; lia].
  apply below_pow2_15; [exact Hnn|].
  pose proof (Z.log2_land x y ltac:(lia) ltac:(lia)). lia.
Qed.

Lemma word_lor (x y : Z) : word x -> word y -> word (Z.lor x y).
Proof.
  intros Hx Hy.
  pose proof (word_log2 x Hx) as Hlx. pose proof (word_log2 y Hy) as Hly.
  unfold word in *.
  assert (Hnn : 0 <= Z.lor x y) by (apply Z.lor_nonneg; lia).
  split; [exact Hnn|].
  assert (Z.lor x y < 2 ^ 15); [|change (2 ^ 15) with 32768 in *; lia].
  apply below_pow2_15; [exact Hnn|].
  rewrite Z.log2_lor by lia. lia.
Qed.

(** X5.  [and] and [or] store the bitwise conjunction and disjunction of
    the values of their operands as they are, whatever these values: no
    reduction modulo 32768 is applied, so with an operand above 32767 the
    value stored can be above 32767 too.  When both operands are words
    between 0 and 32767 so is the value stored. *)
Theorem and_or_store_unreduced (vm : VirtualMachine) (a b c vb vc : Z) :
  32768 <= a <= 32775 ->
  getValueOrReg b vm = Ok vb vm ->
  getValueOrReg c vm = Ok vc vm ->
  And.exec [a; b; c] vm =
    Ok tt (set_registers
             (with_register (a - 32768) (Z.land vb vc) (_registers vm)) vm) /\
  Or.exec [a; b; c] vm =
    Ok tt (set_registers
             (with_register (a - 32768) (Z.lor vb vc) (_registers vm)) vm) /\
  (word vb -> word vc -> word (Z.land vb vc) /\ word (Z.lor vb vc)).
Proof.
  intros Ha Hb Hc. split; [|split].
  - unfold And.exec. monad_unfold. rewrite Hb, Hc.
    apply setRegister_valid. exact Ha.
  - unfold Or.exec. monad_unfold. rewrite Hb, Hc.
    apply setRegister_valid. exact Ha.
  - intros Hvb Hvc. split; [apply word_land | apply word_lor]; assumption.
Qed.

Lemma and_or_store_unreduced_witness :
  And.exec [32769; 32768; 32768] after_rmem =
    Ok tt (set_registers
             (with_register (32769 - 32768) 40000 (_registers after_rmem))
             after_rmem) /\
  Or.exec [32769; 32768; 1] after_rmem =
    Ok tt (set_registers
             (with_register (32769 - 32768) 40001 (_registers after_rmem))
             after_rmem).
Proof.
  split.
  - exact (proj1 (and_or_store_unreduced after_rmem 32769 32768 32768
                    40000 40000 ltac:(lia) eq_refl eq_refl)).
  - exact (proj1 (proj2 (and_or_store_unreduced after_rmem 32769 32768 1
                           40000 1 ltac:(lia) eq_refl eq_refl))).
Defined.

(** X6.  [mod a b c] raises [ZeroDivisionError] when [c] resolves to 0,
    whatever [a] is and without changing the machine; with a positive
    divisor and a register [a] it stores the remainder, which is
    non-negative and smaller than the divisor. *)
Theorem mod_by_zero_and_positive (vm : VirtualMachine) (a b c vb vc : Z) :
  getValueOrReg b vm = Ok vb vm ->
  getValueOrReg c vm = Ok vc vm ->
  (vc = 0 -> Mod.exec [a; b; c] vm = Raise ZeroDivisionError vm) /\
  (0 < vc ->
   32768 <= a <= 32775 ->
   Mod.exec [a; b; c] vm =
     Ok tt (set_registers
              (with_register (a - 32768) (vb mod vc) (_registers vm)) vm) /\
   0 <= vb mod vc < vc).
Proof.
  intros Hb Hc. split.
  - intros ->. unfold Mod.exec. monad_unfold. rewrite Hb, Hc. reflexivity.
  - intros Hvc Ha. split; [|apply Z.mod_pos_bound; exact Hvc].
    unfold Mod.exec. monad_unfold. rewrite Hb, Hc.
    destruct (Z.eqb_spec vc 0); [lia|].
    apply setRegister_valid. exact Ha.
Qed.

Lemma mod_by_zero_and_positive_witness :
  Mod.exec [5; 32768; 0] sample_vm = Raise ZeroDivisionError sample_vm /\
  Mod.exec [32770; 32767; 32769] sample_vm =
    Ok tt (set_registers
             (with_register (32770 - 32768) (32767 mod 12)
                (_registers sample_vm)) sample_vm).
Proof.
  split.
  - apply (proj1 (mod_by_zero_and_positive sample_vm 5 32768 0 11 0
                    eq_refl eq_refl)). reflexivity.
  - apply (proj2 (mod_by_zero_and_positive sample_vm 32770 32767 32769 32767 12
                    eq_refl eq_refl)); lia.
Defined.

(** ** Control transfer *)

(** X7.  [jt] and [jf] are complementary: when [a] resolves to a non-zero
    value [jt a b] moves to the value of [b] and [jf a b] to the next
    instruction, three words further, and the other way round when [a]
    resolves to 0.  The instruction that falls through never resolves [b],
    so it succeeds even when [b] is not a valid operand. *)
Theorem jt_jf_complementary (vm : VirtualMachine) (a b va : Z) :
  getValueOrReg a vm = Ok va vm ->
  (va <> 0 ->
   Jf.incpc [a; b] vm = Ok tt (set_pc (_pc vm + 3) vm) /\
   forall vb, getValueOrReg b vm = Ok vb vm ->
              Jt.incpc [a; b] vm = Ok tt (set_pc vb vm)) /\
  (va = 0 ->
   Jt.incpc [a; b] vm = Ok tt (set_pc (_pc vm + 3) vm) /\
   forall vb, getValueOrReg b vm = Ok vb vm ->
              Jf.incpc [a; b] vm = Ok tt (set_pc vb vm)).
Proof.
  intros Ha. split.
  - intros Hva. split.
    + unfold Jf.incpc. monad_unfold. rewrite Ha.
      destruct (Z.eqb_spec va 0); [contradiction | reflexivity].
    + intros vb Hb. unfold Jt.incpc. monad_unfold. rewrite Ha.
      destruct (Z.eqb_spec va 0); [contradiction|].
      cbn [negb]. rewrite Hb. reflexivity.
  - intros ->. split.
    + unfold Jt.incpc. monad_unfold. rewrite Ha. reflexivity.
    + intros vb Hb. unfold Jf.incpc. monad_unfold. rewrite Ha.
      cbn [Z.eqb]. rewrite Hb. reflexivity.
Qed.

Lemma jt_jf_complementary_witness :
  (Jf.incpc [32768; 40000] sample_vm = Ok tt (set_pc (_pc sample_vm + 3) sample_vm) /\
   forall vb, getValueOrReg 40000 sample_vm = Ok vb sample_vm ->
              Jt.incpc [32768; 40000] sample_vm = Ok tt (set_pc vb sample_vm)) /\
  (Jt.incpc [0; 32769] sample_vm = Ok tt (set_pc (_pc sample_vm + 3) sample_vm) /\
   forall vb, getValueOrReg 32769 sample_vm = Ok vb sample_vm ->
              Jf.incpc [0; 32769] sample_vm = Ok tt (set_pc vb sample_vm)).
Proof.
  split.
  - apply (proj1 (jt_jf_complementary sample_vm 32768 40000 11 eq_refl)). lia.
  - apply (proj2 (jt_jf_complementary sample_vm 0 32769 0 eq_refl)). reflexivity.
Defined.

(** X8.  [call a] pushes the address of the next instruction and moves to
    the value of [a]; when that return address is a literal (at most
    32767), a [ret] executed with the stack as the call left it returns to
    the instruction after the call and restores the stack. *)
Theorem call_then_ret (vm : VirtualMachine) (a target : Z) :
  getValueOrReg a vm = Ok target vm ->
  0 <= _pc vm + 2 <= 32767 ->
  exists vm1,
    (Call.exec [a] ;; Call.incpc [a]) vm = Ok tt vm1 /\
    _pc vm1 = target /\
    _stack vm1 = _stack vm ++ [_pc vm + 2] /\
    Ret.incpc [] vm1 = Ok tt (set_pc (_pc vm + 2) vm).
Proof.
  intros Ha Hpc.
  exists (set_pc target (set_stack (_stack vm ++ [_pc vm + 2]) vm)).
  split; [|split; [reflexivity | split; [reflexivity|]]].
  - unfold Call.exec, Call.incpc, push. monad_unfold.
    match goal with
    | |- context [getValueOrReg a ?s] =>
        rewrite (getValueOrReg_registers_only a target vm s eq_refl Ha)
    end.
    reflexivity.
  - rewrite (ret_incpc_general
               (set_pc target (set_stack (_stack vm ++ [_pc vm + 2]) vm))
               (_stack vm) (_pc vm + 2) (_pc vm + 2) (_pc vm + 2) eq_refl
               (getValueOrReg_literal _ _ Hpc) (getValueOrReg_literal _ _ Hpc)).
    reflexivity.
Qed.

Lemma call_then_ret_witness :
  exists vm1,
    (Call.exec [32769] ;; Call.incpc [32769]) sample_vm = Ok tt vm1 /\
    _pc vm1 = 12 /\
    _stack vm1 = _stack sample_vm ++ [_pc sample_vm + 2] /\
    Ret.incpc [] vm1 = Ok tt (set_pc (_pc sample_vm + 2) sample_vm).
Proof.
  apply (call_then_ret sample_vm 32769 12); [reflexivity | cbn; lia].
Defined.

(** X9.  A return address above 32775 cannot be resolved: after a [call]
    executed at such a program counter, [ret] removes the return address
    from the stack and then raises [InvalidValueError], leaving the
    program counter at the target of the call. *)
Theorem ret_after_call_from_high_address (vm : VirtualMachine) (a target : Z) :
  getValueOrReg a vm = Ok target vm ->
  32775 < _pc vm + 2 ->
  exists vm1,
    (Call.exec [a] ;; Call.incpc [a]) vm = Ok tt vm1 /\
    Ret.incpc [] vm1 = Raise InvalidValueError (set_pc target vm).
Proof.
  intros Ha Hpc.
  exists (set_pc target (set_stack (_stack vm ++ [_pc vm + 2]) vm)).
  split.
  - unfold Call.exec, Call.incpc, push. monad_unfold.
    match goal with
    | |- context [getValueOrReg a ?s] =>
        rewrite (getValueOrReg_registers_only a target vm s eq_refl Ha)
    end.
    reflexivity.
  - unfold Ret.incpc. unfold bind at 1.
    rewrite (pop_last _ (_stack vm) (_pc vm + 2)) by reflexivity.
    unfold bind at 1. rewrite getValueOrReg_invalid by lia.
    reflexivity.
Qed.

Lemma ret_after_call_from_high_address_witness :
  exists vm1,
    (Call.exec [32768] ;; Call.incpc [32768]) high_pc_vm = Ok tt vm1 /\
    Ret.incpc [] vm1 = Raise InvalidValueError (set_pc 6 high_pc_vm).
Proof.
  apply (ret_after_call_from_high_address high_pc_vm 32768 6);
    [reflexivity | cbn; lia].
Defined.

(** X10.  [push a] followed by [pop b] with a register [b]: [pop]
    resolves the popped word again.  When the value [v] of [a] is a
    literal, [b] receives [v]; when [v] is from 32768 to 32775, [b]
    receives the contents of register [v - 32768] instead of [v]; any
    other [v] raises [InvalidValueError].  In all three cases the stack is
    as it was before the push. *)
Theorem push_then_pop_instruction (vm : VirtualMachine) (a b v : Z) :
  getValueOrReg a vm = Ok v vm ->
  32768 <= b <= 32775 ->
  (0 <= v <= 32767 ->
   (Push.exec [a] ;; Pop.exec [b]) vm =
     Ok tt (set_registers (with_register (b - 32768) v (_registers vm)) vm)) /\
  (32768 <= v <= 32775 ->
   (Push.exec [a] ;; Pop.exec [b]) vm =
     Ok tt (set_registers
              (with_register (b - 32768)
                 (register (v - 32768) (_registers vm)) (_registers vm)) vm)) /\
  (~ 0 <= v <= 32775 ->
   (Push.exec [a] ;; Pop.exec [b]) vm = Raise InvalidValueError vm).
Proof.
  intros Ha Hb.
  assert (Hpop : (Push.exec [a] ;; Pop.exec [b]) vm =
                 (x <- getValueOrReg v ;; setRegister b x)
                   (set_stack (_stack vm)
                      (set_stack (_stack vm ++ [v]) vm))).
  { unfold Push.exec, Pop.exec, push. monad_unfold. rewrite Ha.
    rewrite (pop_last _ (_stack vm) v) by reflexivity. reflexivity. }
  rewrite Hpop, set_stack_same. unfold bind.
  split; [|split]; intros Hv.
  - rewrite getValueOrReg_literal by exact Hv.
    apply setRegister_valid. exact Hb.
  - rewrite getValueOrReg_register by exact Hv.
    apply setRegister_valid. exact Hb.
  - rewrite getValueOrReg_invalid by exact Hv. reflexivity.
Qed.

Lemma push_then_pop_instruction_witness :
  (Push.exec [32769] ;; Pop.exec [32775]) sample_vm =
    Ok tt (set_registers
             (with_register (32775 - 32768) 12 (_registers sample_vm))
             sample_vm) /\
  (Push.exec [32768] ;; Pop.exec [32775]) before_ret =
    Ok tt (set_registers
             (with_register (32775 - 32768) 14 (_registers before_ret))
             before_ret) /\
  (Push.exec [32768] ;; Pop.exec [32775]) after_rmem =
    Raise InvalidValueError after_rmem.
Proof.
  split; [|split].
  - apply (proj1 (push_then_pop_instruction sample_vm 32769 32775 12
                    eq_refl ltac:(lia))). lia.
  - exact (proj1 (proj2 (push_then_pop_instruction before_ret 32768 32775 32769
                           eq_refl ltac:(lia))) ltac:(lia)).
  - apply (proj2 (proj2 (push_then_pop_instruction after_rmem 32768 32775 40000
                           eq_refl ltac:(lia)))). lia.
Defined.

(** ** Decoding *)

Lemma registry_OPCODE (c : opclass) : registry (OPCODE c) = Some c.
Proof. destruct c; reflexivity. Qed.

Lemma registry_above (op : Z) : 21 < op -> registry op = None.
Proof.
  intros Hop. destruct op as [|p|p]; try lia.
  do 5 (destruct p as [p|p|]; try reflexivity; try lia).
Qed.

Lemma registry_Some (op : Z) (c : opclass) :
  registry op = Some c -> OPCODE c = op /\ -1 <= op <= 21.
Proof.
  intros H.
  destruct (Z_lt_dec 21 op) as [Hgt|Hle];
    [rewrite registry_above in H by exact Hgt; discriminate H|].
  destruct op as [|p|p].
  - inversion H; subst. cbn. lia.
  - do 5 (destruct p as [p|p|];
          try (inversion H; subst; cbn; lia); try lia).
  - destruct p as [p|p|]; try discriminate H.
    inversion H; subst. cbn. lia.
Qed.

(** What a successful [readMemory] returns: the machine unchanged and
    exactly [words] words, each a 16-bit value, for a count from 1 to
    32768. *)
Lemma readMemory_Ok (vm vm' : VirtualMachine) (address words : Z)
    (ws : list Z) :
  readMemory address words vm = Ok ws vm' ->
  vm' = vm /\ len ws = words /\ 1 <= words <= 32768 /\ Forall word16 ws.
Proof.
  intros H.
  destruct (Z.eq_dec words 0) as [->|Hn]; [discriminate H|].
  destruct (Z_le_dec words 32768) as [Hle|Hgt].
  2:{ unfold readMemory in H.
      replace (words >? 2 ^ 15) with true in H
        by (symmetry; apply Z.gtb_lt; change (2 ^ 15) with 32768; lia).
      rewrite orb_true_r in H. discriminate H. }
  rewrite readMemory_in_range in H by lia.
  set (buf := slice (_memory vm) (address * 2) (address * 2 + 2 * words)) in H.
  unfold unpack_H in H.
  destruct (Z.leb_spec 0 words) as [H0|]; [|discriminate H].
  destruct (Z.eqb_spec (len buf) (2 * words)) as [Hlen|]; [|discriminate H].
  cbn [andb] in H. inversion H; subst ws vm'. clear H.
  repeat split; try lia.
  - unfold len in *.
    rewrite (words_of_bytes_length buf (Z.to_nat words)); lia.
  - apply words_of_bytes_word16.
Qed.

Lemma len_one {A} (l : list A) : len l = 1 -> exists x, l = [x].
Proof.
  unfold len. destruct l as [|x [|y l]]; cbn [length]; intros H; try lia.
  now exists x.
Qed.

(** X11.  When the word at the program counter is greater than 21,
    [decode] raises [KeyError] without changing the machine, and a running
    machine ends its run with that exception. *)
Theorem decode_unknown_opcode (vm : VirtualMachine) (op : Z) (fuel : nat) :
  readMemory (_pc vm) 1 vm = Ok [op] vm ->
  21 < op ->
  decode vm = Raise KeyError vm /\
  (running vm = true -> run (S fuel) vm = Some (Raise KeyError vm)).
Proof.
  intros Hread Hop.
  assert (Hd : decode vm = Raise KeyError vm).
  { unfold decode. monad_unfold. rewrite Hread.
    rewrite registry_above by exact Hop. reflexivity. }
  split; [exact Hd|].
  intros Hrun. apply run_raise; [exact Hrun|].
  unfold loop_body, bind. rewrite Hd. reflexivity.
Qed.

Lemma decode_unknown_opcode_witness :
  decode unknown_opcode_vm = Raise KeyError unknown_opcode_vm /\
  (running unknown_opcode_vm = true ->
   run 1 unknown_opcode_vm = Some (Raise KeyError unknown_opcode_vm)).
Proof.
  apply (decode_unknown_opcode unknown_opcode_vm 22 0); [reflexivity | lia].
Defined.

(** The shape of what [decode] returns. *)
Lemma decode_Ok (vm vm' : VirtualMachine) (i : Instruction) :
  decode vm = Ok i vm' ->
  vm' = vm /\
  0 <= OPCODE (cls i) <= 21 /\
  cls i <> CInstruction /\
  readMemory (_pc vm) 1 vm = Ok [OPCODE (cls i)] vm /\
  len (_args i) = ARGS (cls i) /\
  (ARGS (cls i) <> 0 ->
   readMemory (_pc vm + 1) (ARGS (cls i)) vm = Ok (_args i) vm).
Proof.
  unfold decode. monad_unfold.
  destruct (readMemory (_pc vm) 1 vm) as [ws vm1|] eqn:Hread; [|discriminate].
  destruct (readMemory_Ok _ _ _ _ _ Hread) as (-> & Hlen & _ & Hws).
  destruct (len_one ws Hlen) as [op ->].
  inversion Hws as [|? ? Hop _]; subst.
  destruct (registry op) as [c|] eqn:Hreg; [|discriminate].
  destruct (registry_Some op c Hreg) as [<- _].
  assert (Hc : c <> CInstruction).
  { intros ->. cbn in Hop. unfold word16 in Hop. lia. }
  assert (Hrange : 0 <= OPCODE c <= 21)
    by (destruct c; cbn; try lia; contradiction).
  unfold new_instruction.
  destruct (Z.eqb_spec (ARGS c) 0) as [Hz|Hnz]; cbn [negb].
  - rewrite Hz. cbn [len length Z.of_nat Z.eqb negb]. unfold pure.
    intros H. injection H as <- <-. cbn [cls _args].
    rewrite Hz. repeat split; try assumption; try lia.
  - unfold class_len.
    replace (1 + ARGS c - 1) with (ARGS c) by lia.
    destruct (readMemory (_pc vm + 1) (ARGS c) vm) as [args vm2|] eqn:Hargs;
      [|discriminate].
    destruct (readMemory_Ok _ _ _ _ _ Hargs) as (-> & Hla & _ & _).
    rewrite Hla, Z.eqb_refl. cbn [negb]. unfold pure.
    intros H. injection H as <- <-. cbn [cls _args].
    repeat split; try assumption; try lia.
    intros _. exact Hargs.
Qed.

(** X12.  Whenever [decode] returns an instruction, the machine is
    unchanged, the class of the instruction is the one registered under
    the word at the program counter (an opcode from 0 to 21, never the
    base class), and its operands are the [ARGS] words that follow it in
    memory, as many as the arity of the class. *)
Theorem decode_returns_well_formed (vm vm' : VirtualMachine) (i : Instruction) :
  decode vm = Ok i vm' ->
  vm' = vm /\
  0 <= OPCODE (cls i) <= 21 /\
  cls i <> CInstruction /\
  readMemory (_pc vm) 1 vm = Ok [OPCODE (cls i)] vm /\
  len (_args i) = ARGS (cls i) /\
  (ARGS (cls i) <> 0 ->
   readMemory (_pc vm + 1) (ARGS (cls i)) vm = Ok (_args i) vm).
Proof.
  intros H.
  destruct (decode_Ok vm vm' i H) as (Hvm & Hop & Hc & Hread & Hlen & Hargs).
  split; [exact Hvm|]. split; [exact Hop|]. split; [exact Hc|].
  split; [exact Hread|]. split; [exact Hlen | exact Hargs].
Qed.

Lemma decode_returns_well_formed_witness :
  0 <= OPCODE (cls (mkInstruction CSet [32768; 32769])) <= 21 /\
  len (_args (mkInstruction CSet [32768; 32769])) =
    ARGS (cls (mkInstruction CSet [32768; 32769])).
Proof.
  destruct (decode_returns_well_formed sample_vm sample_vm
              (mkInstruction CSet [32768; 32769]) eq_refl)
    as (_ & Hop & _ & _ & Hlen & _).
  split; [exact Hop | exact Hlen].
Defined.

(** ** Guards that never fire *)

Lemma avoids_bind_post {A B} (m : M A) (k : A -> M B) (Q : A -> Prop) :
  avoids m ->
  (forall vm a vm', m vm = Ok a vm' -> Q a) ->
  (forall a, Q a -> avoids (k a)) ->
  avoids (bind m k).
Proof.
  intros Hm HQ Hk vm e vm' H. unfold bind in H.
  destruct (m vm) as [a vm1|e1 vm1] eqn:E.
  - apply (Hk a (HQ vm a vm1 E) vm1 e vm' H).
  - inversion H; subst. apply (Hm vm e vm' E).
Qed.

Lemma avoids_bind {A B} (m : M A) (k : A -> M B) :
  avoids m -> (forall a, avoids (k a)) -> avoids (bind m k).
Proof.
  intros Hm Hk.
  apply (avoids_bind_post m k (fun _ => True)); auto.
Qed.

Lemma avoids_returns {A} (m : M A) :
  (forall vm, exists a vm', m vm = Ok a vm') -> avoids m.
Proof.
  intros H vm e vm' Hr. destruct (H vm) as (a & vm1 & E).
  rewrite E in Hr. discriminate Hr.
Qed.

Lemma avoids_raise {A} (e : exn) : ~ guard_error e -> avoids (@raise A e).
Proof.
  intros He vm e' vm' H. inversion H; subst. exact He.
Qed.

Ltac monad_unfold_in H :=
  cbv beta iota delta [bind pure get modify raise unpack2 unpack3 index0] in H.

Ltac not_guard :=
  let H := fresh in
  intros H; destruct H as [H | [H | H]]; discriminate H.

Ltac avoids_total := apply avoids_returns; intros ?; eexists; eexists; reflexivity.

Lemma avoids_getValueOrReg (w : Z) : avoids (getValueOrReg w).
Proof.
  intros vm e vm' H.
  destruct (getValueOrReg_cases w vm) as [[v Hv]|Hv]; rewrite Hv in H.
  - discriminate H.
  - inversion H; subst. not_guard.
Qed.

Lemma avoids_setRegister (reg v : Z) : avoids (setRegister reg v).
Proof.
  intros vm e vm' H.
  destruct (Z_le_dec 32768 reg) as [H0|H0];
    [destruct (Z_le_dec reg 32775) as [H1|H1]|].
  - rewrite setRegister_valid in H by lia. discriminate H.
  - rewrite setRegister_invalid in H by lia. inversion H; subst. not_guard.
  - rewrite setRegister_invalid in H by lia. inversion H; subst. not_guard.
Qed.

Lemma avoids_pop : avoids pop.
Proof.
  intros vm e vm' H. unfold pop in H. monad_unfold_in H.
  destruct (_stack vm); [|discriminate H].
  inversion H; subst. not_guard.
Qed.

Lemma avoids_stdin : avoids stdin.
Proof.
  intros vm e vm' H. unfold stdin in H. monad_unfold_in H.
  destruct (_stdin vm) as [|c buf] eqn:Hbuf.
  - destruct (readline (sys_stdin vm)) as [line rest]. cbn in H.
    destruct line; [|discriminate H].
    inversion H; subst. not_guard.
  - cbn in H. rewrite Hbuf in H. discriminate H.
Qed.

Lemma avoids_readMemory (address words : Z) :
  1 <= words <= 32768 -> avoids (readMemory address words).
Proof.
  intros Hw vm e vm' H. rewrite readMemory_in_range in H by lia.
  destruct (unpack_H _ _); [discriminate H|].
  inversion H; subst. not_guard.
Qed.

Lemma avoids_writeMemory (address data : Z) : avoids (writeMemory address data).
Proof.
  intros vm e vm' H. unfold writeMemory in H. monad_unfold_in H.
  destruct (pack_H data); [discriminate H|].
  inversion H; subst. not_guard.
Qed.

Lemma avoids_chr (v : Z) : avoids (chr v).
Proof.
  intros vm e vm' H. unfold chr in H.
  destruct (_ || _); [inversion H; subst; not_guard|].
  destruct (_ || _); [inversion H; subst; not_guard|].
  discriminate H.
Qed.

Lemma avoids_unpack2 (args : list Z) : avoids (unpack2 args).
Proof.
  intros vm e vm' H. unfold unpack2 in H.
  destruct args as [|a [|b [|c args]]]; cbn in H;
    try discriminate H; inversion H; subst; not_guard.
Qed.

Lemma avoids_unpack3 (args : list Z) : avoids (unpack3 args).
Proof.
  intros vm e vm' H. unfold unpack3 in H.
  destruct args as [|a [|b [|c [|d args]]]]; cbn in H;
    try discriminate H; inversion H; subst; not_guard.
Qed.

Lemma avoids_index0 (args : list Z) : avoids (index0 args).
Proof.
  intros vm e vm' H. unfold index0 in H.
  destruct args; cbn in H; [inversion H; subst; not_guard | discriminate H].
Qed.

Lemma avoids_default_incpc (c : opclass) : avoids (default_incpc c).
Proof. avoids_total. Qed.

Lemma avoids_stdout_write (c : Z) : avoids (stdout_write c).
Proof.
  intros vm e vm' H. unfold stdout_write in H.
  destruct (_ && _); [inversion H; subst; not_guard | discriminate H].
Qed.

Ltac avoids_prim :=
  first [ apply avoids_getValueOrReg
        | apply avoids_setRegister
        | apply avoids_pop
        | apply avoids_stdin
        | apply avoids_readMemory; lia
        | apply avoids_writeMemory
        | apply avoids_chr
        | apply avoids_unpack2
        | apply avoids_unpack3
        | apply avoids_index0
        | apply avoids_default_incpc
        | apply avoids_stdout_write
        | apply avoids_raise; not_guard
        | avoids_total ].

Ltac avoids_step :=
  lazymatch goal with
  | |- avoids (bind _ _) => apply avoids_bind; [avoids_prim | intros ?]
  | |- avoids (match ?p with _ => _ end) => destruct p
  | |- _ => avoids_prim
  end.

Lemma avoids_exec (i : Instruction) : cls i <> CInstruction -> avoids (exec i).
Proof.
  destruct i as [c args]. cbn [cls]. intros Hc.
  destruct c; [contradiction | ..]; cbn [exec cls _args];
    unfold Halt.exec, Set_.exec, Push.exec, Pop.exec, Eq.exec, Gt.exec,
      Jmp.exec, Jt.exec, Jf.exec, Add.exec, Mult.exec, Mod.exec, And.exec,
      Or.exec, Not.exec, Rmem.exec, Wmem.exec, Call.exec, Ret.exec, Out.exec,
      In_.exec, Noop.exec, push;
    repeat avoids_step.
Qed.

Lemma avoids_incpc (i : Instruction) : avoids (incpc i).
Proof.
  destruct i as [c args].
  destruct c; cbn [incpc cls _args];
    unfold Jmp.incpc, Jt.incpc, Jf.incpc, Call.incpc, Ret.incpc;
    repeat avoids_step.
Qed.

Lemma ARGS_range (c : opclass) : 0 <= ARGS c <= 3.
Proof. destruct c; cbn; lia. Qed.

Lemma avoids_decode : avoids decode.
Proof.
  unfold decode.
  apply avoids_bind; [avoids_total | intros pc].
  apply avoids_bind; [apply avoids_readMemory; lia | intros ws].
  apply avoids_bind; [apply avoids_index0 | intros opcode].
  destruct (registry opcode) as [c|]; [|apply avoids_raise; not_guard].
  pose proof (ARGS_range c) as Hr.
  unfold new_instruction.
  destruct (Z.eqb_spec (ARGS c) 0) as [Hz|Hnz]; cbn [negb].
  - rewrite Hz. cbn [len length Z.of_nat Z.eqb negb]. avoids_total.
  - apply avoids_bind; [avoids_total | intros pc'].
    unfold class_len. replace (1 + ARGS c - 1) with (ARGS c) by lia.
    apply (avoids_bind_post _ _ (fun args => len args = ARGS c)).
    + apply avoids_readMemory. lia.
    + intros vm args vm' H. apply (readMemory_Ok _ _ _ _ _ H).
    + intros args Hla. rewrite Hla, Z.eqb_refl. cbn [negb]. avoids_total.
Qed.

(** X13.  A turn of the loop of [run] never raises [InvalidReadError],
    [InvalidArgumentsError] or [NotImplementedError]: the loop only reads
    one word or as many words as the arity of a class, the operands it
    hands to a class are as many as its arity, and the base class, which
    is registered under -1, is never decoded from a 16-bit word.  The same
    holds of a whole run. *)
Theorem loop_never_raises_guard_errors (vm vm' : VirtualMachine) (e : exn) :
  (loop_body vm = Raise e vm' -> ~ guard_error e) /\
  (forall fuel, run fuel vm = Some (Raise e vm') -> ~ guard_error e).
Proof.
  assert (Hloop : avoids loop_body).
  { unfold loop_body.
    apply (avoids_bind_post _ _ (fun i => cls i <> CInstruction)).
    - apply avoids_decode.
    - intros s i s' H. apply (decode_Ok s s' i H).
    - intros i Hi. apply avoids_bind; [apply avoids_exec; exact Hi | intros _].
      apply avoids_incpc. }
  split; [apply Hloop|].
  intros fuel. revert vm.
  induction fuel as [|fuel IH]; intros vm H; cbn in H.
  - destruct (running vm); discriminate H.
  - destruct (running vm); [|discriminate H].
    destruct (loop_body vm) as [u vm1|e1 vm1] eqn:E.
    + apply (IH vm1 H).
    + inversion H; subst. apply (Hloop vm e vm' E).
Qed.

Lemma loop_never_raises_guard_errors_witness :
  ~ guard_error KeyError.
Proof.
  apply (proj1 (loop_never_raises_guard_errors
                  unknown_opcode_vm unknown_opcode_vm KeyError)).
  reflexivity.
Defined.

(** ** Character input *)

Lemma readline_app (src : list Z) :
  fst (readline src) ++ snd (readline src) = src.
Proof.
  induction src as [|c src IH]; [reflexivity|].
  cbn [readline]. destruct (c =? 10); [reflexivity|].
  destruct (readline src) as [l r]. cbn [fst snd app] in *.
  f_equal. exact IH.
Qed.

Lemma readline_cons (c : Z) (src : list Z) :
  exists line, fst (readline (c :: src)) = c :: line /\
               line ++ snd (readline (c :: src)) = src.
Proof.
  pose proof (readline_app (c :: src)) as Happ.
  assert (Hhead : exists line, fst (readline (c :: src)) = c :: line).
  { cbn [readline]. destruct (c =? 10); [exists []; reflexivity|].
    destruct (readline src) as [l r]. exists l. reflexivity. }
  destruct Hhead as [line Hline]. exists line. split; [exact Hline|].
  rewrite Hline in Happ. cbn [app] in Happ. injection Happ as Happ.
  exact Happ.
Qed.

(** Reading a character when one is available. *)
Lemma stdin_head (vm : VirtualMachine) (c : Z) (rest : list Z) :
  _stdin vm ++ sys_stdin vm = c :: rest ->
  exists vm',
    stdin vm = Ok c vm' /\
    _stdin vm' ++ sys_stdin vm' = rest /\
    running vm' = running vm /\ _memory vm' = _memory vm /\
    _stack vm' = _stack vm /\ _pc vm' = _pc vm /\
    _registers vm' = _registers vm /\ sys_stdout vm' = sys_stdout vm.
Proof.
  intros H. unfold stdin. monad_unfold.
  destruct (_stdin vm) as [|b buf] eqn:Hbuf.
  - cbn [app] in H. rewrite H.
    destruct (readline_cons c rest) as (line & H1 & H2).
    destruct (readline (c :: rest)) as [l r]. cbn [fst snd] in *. subst l.
    cbn. eexists. split; [reflexivity|]. cbn. repeat split. exact H2.
  - cbn [app] in H. injection H as -> <-.
    cbn. rewrite Hbuf. eexists. split; [reflexivity|]. cbn. repeat split.
Qed.

(** X14.  The characters are handed out in the order of the input: when
    the line buffer followed by what is left of the standard input starts
    with [c], the [stdin] property returns [c] and leaves the rest, split
    between the buffer and the standard input; nothing else changes. *)
Theorem stdin_delivers_in_order (vm : VirtualMachine) (c : Z) (rest : list Z) :
  _stdin vm ++ sys_stdin vm = c :: rest ->
  exists vm',
    stdin vm = Ok c vm' /\
    _stdin vm' ++ sys_stdin vm' = rest /\
    running vm' = running vm /\ _memory vm' = _memory vm /\
    _stack vm' = _stack vm /\ _pc vm' = _pc vm /\
    _registers vm' = _registers vm /\ sys_stdout vm' = sys_stdout vm.
Proof.
  intros H.
  destruct (stdin_head vm c rest H) as (vm' & Hs & Hrest & Hframe).
  exists vm'. split; [exact Hs|]. split; [exact Hrest | exact Hframe].
Qed.

Lemma stdin_delivers_in_order_witness :
  exists vm',
    stdin buffered_vm = Ok 10 vm' /\
    _stdin vm' ++ sys_stdin vm' = [98; 99; 10; 100] /\
    running vm' = running buffered_vm /\ _memory vm' = _memory buffered_vm /\
    _stack vm' = _stack buffered_vm /\ _pc vm' = _pc buffered_vm /\
    _registers vm' = _registers buffered_vm /\
    sys_stdout vm' = sys_stdout buffered_vm.
Proof.
  apply (stdin_delivers_in_order buffered_vm 10 [98; 99; 10; 100]).
  reflexivity.
Defined.

(** ** Memory writes and the words around them *)

Lemma readMemory_word (vm : VirtualMachine) (k : Z) :
  0 <= k ->
  2 * k + 2 <= len (_memory vm) ->
  readMemory k 1 vm = Ok [word_at (_memory vm) k] vm.
Proof.
  intros Hk Hlen. unfold len in Hlen.
  rewrite readMemory_in_range by lia.
  rewrite slice_nonneg by lia.
  replace (Z.to_nat (k * 2 + 2 * 1 - k * 2)) with 2%nat by lia.
  remember (skipn (Z.to_nat (k * 2)) (_memory vm)) as tl eqn:Htl.
  assert (Hl : (2 <= length tl)%nat) by (subst tl; rewrite length_skipn; lia).
  destruct tl as [|x [|y tl]]; cbn [length] in Hl; try lia.
  cbn [firstn]. unfold unpack_H. cbn [len length].
  change ((0 <=? 1) && (Z.of_nat 2 =? 2 * 1)) with true.
  cbn [words_of_bytes]. unfold word_at.
  replace (Z.to_nat (2 * k)) with (Z.to_nat (k * 2) + 0)%nat by lia.
  replace (Z.to_nat (2 * k + 1)) with (Z.to_nat (k * 2) + 1)%nat by lia.
  rewrite <- !nth_skipn, <- Htl. reflexivity.
Qed.

Lemma readMemory_outside (vm : VirtualMachine) (k : Z) :
  0 <= k ->
  len (_memory vm) < 2 * k + 2 ->
  readMemory k 1 vm = Raise StructError vm.
Proof.
  intros Hk Hlen. unfold len in Hlen.
  rewrite readMemory_in_range by lia.
  rewrite slice_nonneg by lia.
  unfold unpack_H.
  replace (len _ =? 2 * 1) with false; [now rewrite andb_false_r|].
  symmetry. apply Z.eqb_neq. unfold len.
  rewrite length_firstn, length_skipn. lia.
Qed.

(** The bytes of a sequence in which the two bytes at [n] have been
    replaced. *)
Lemma nth_replace_two (mem : list byte) (n i : nat) (x y d : byte) :
  (n + 2 <= length mem)%nat ->
  nth i (firstn n mem ++ [x; y] ++ skipn (n + 2) mem) d =
  if (i =? n)%nat then x
  else if (i =? n + 1)%nat then y
  else nth i mem d.
Proof.
  intros Hn.
  assert (Hf : length (firstn n mem) = n) by (rewrite length_firstn; lia).
  destruct (Nat.eqb_spec i n) as [->|Hin].
  - rewrite app_nth2 by lia. rewrite Hf, Nat.sub_diag. reflexivity.
  - destruct (Nat.eqb_spec i (n + 1)) as [->|Hin1].
    + rewrite app_nth2 by lia. rewrite Hf.
      replace (n + 1 - n)%nat with 1%nat by lia. reflexivity.
    + destruct (Nat.lt_ge_cases i n) as [Hlt|Hge].
      * rewrite app_nth1 by lia. rewrite nth_firstn.
        destruct (Nat.ltb_spec i n); [reflexivity | lia].
      * rewrite app_nth2 by lia. rewrite Hf.
        rewrite app_nth2 by (cbn [length]; lia). cbn [length].
        rewrite nth_skipn. f_equal. lia.
Qed.

(** X15.  A write inside the memory changes the word addressed and no
    other: the memory keeps its length, and every single-word read at
    another address returns, or fails, as it did before the write. *)
Theorem writeMemory_changes_one_word (vm : VirtualMachine) (addr v : Z) :
  0 <= addr ->
  2 * addr + 2 <= len (_memory vm) ->
  0 <= v <= 65535 ->
  exists vm',
    writeMemory addr v vm = Ok tt vm' /\
    len (_memory vm') = len (_memory vm) /\
    readMemory addr 1 vm' = Ok [v] vm' /\
    (forall k, 0 <= k -> k <> addr ->
               readMemory k 1 vm' =
               match readMemory k 1 vm with
               | Ok ws _ => Ok ws vm'
               | Raise e _ => Raise e vm'
               end).
Proof.
  intros Ha Hlen Hv. eexists.
  split; [apply writeMemory_in_extent; assumption|].
  set (vm' := set_memory _ vm).
  assert (Hmem : _memory vm' =
                 firstn (Z.to_nat (addr * 2)) (_memory vm) ++
                 [byte_of_Z (v mod 256); byte_of_Z (v / 256)] ++
                 skipn (Z.to_nat (addr * 2 + 2)) (_memory vm)) by reflexivity.
  assert (Hl : len (_memory vm') = len (_memory vm)).
  { rewrite Hmem. unfold len in *.
    rewrite !length_app, length_firstn, length_skipn. cbn [length]. lia. }
  split; [exact Hl|]. split.
  - apply (read_after_write vm' (_memory vm) addr v Ha Hlen Hv Hmem).
  - intros k Hk Hne.
    destruct (Z_le_dec (2 * k + 2) (len (_memory vm))) as [Hin|Hout].
    + rewrite (readMemory_word vm k Hk Hin).
      rewrite (readMemory_word vm' k Hk) by lia.
      do 2 f_equal. unfold word_at. rewrite Hmem.
      replace (Z.to_nat (addr * 2 + 2)) with (Z.to_nat (addr * 2) + 2)%nat by lia.
      unfold len in Hlen.
      rewrite !nth_replace_two by lia.
      destruct (Nat.eqb_spec (Z.to_nat (2 * k)) (Z.to_nat (addr * 2))); [lia|].
      destruct (Nat.eqb_spec (Z.to_nat (2 * k)) (Z.to_nat (addr * 2) + 1)); [lia|].
      destruct (Nat.eqb_spec (Z.to_nat (2 * k + 1)) (Z.to_nat (addr * 2))); [lia|].
      destruct (Nat.eqb_spec (Z.to_nat (2 * k + 1)) (Z.to_nat (addr * 2) + 1)); [lia|].
      reflexivity.
    + rewrite (readMemory_outside vm k Hk) by lia.
      apply readMemory_outside; lia.
Qed.

Lemma writeMemory_changes_one_word_witness :
  exists vm',
    writeMemory 1 777 sample_vm = Ok tt vm' /\
    len (_memory vm') = len (_memory sample_vm) /\
    readMemory 1 1 vm' = Ok [777] vm' /\
    (forall k, 0 <= k -> k <> 1 ->
               readMemory k 1 vm' =
               match readMemory k 1 sample_vm with
               | Ok ws _ => Ok ws vm'
               | Raise e _ => Raise e vm'
               end).
Proof.
  apply (writeMemory_changes_one_word sample_vm 1 777);
    [lia | vm_compute; discriminate | lia].
Defined.

(** X16.  A write past the end of the memory does not fail and does not
    write at the address: the two bytes are appended to the memory.  When
    the address is the first one past the end the word can be read back,
    so the memory has grown by one word; further out, reading the address
    back still fails. *)
Theorem writeMemory_past_the_end (vm : VirtualMachine) (addr v : Z) :
  0 <= v <= 65535 ->
  len (_memory vm) <= 2 * addr ->
  let vm' := set_memory
               (_memory vm ++ [byte_of_Z (v mod 256); byte_of_Z (v / 256)]) vm in
  writeMemory addr v vm = Ok tt vm' /\
  (len (_memory vm) = 2 * addr -> readMemory addr 1 vm' = Ok [v] vm') /\
  (len (_memory vm) < 2 * addr -> readMemory addr 1 vm' = Raise StructError vm').
Proof.
  intros Hv Hlen vm'. pose proof (len_nonneg (_memory vm)) as Hnn.
  split; [|split].
  - rewrite writeMemory_in_extent by lia. unfold vm', len in *.
    rewrite firstn_all2 by lia. rewrite skipn_all2 by lia.
    rewrite app_nil_r. reflexivity.
  - intros Heq.
    apply (read_after_write vm' (_memory vm ++ [byte_of_Z (v mod 256);
                                               byte_of_Z (v / 256)]) addr v).
    + lia.
    + unfold len in *. rewrite length_app. cbn [length]. lia.
    + exact Hv.
    + unfold vm', len in *. cbn [_memory set_memory].
      rewrite firstn_app.
      rewrite firstn_all2 by lia.
      replace (Z.to_nat (addr * 2) - length (_memory vm))%nat with 0%nat by lia.
      cbn [firstn]. rewrite app_nil_r.
      rewrite skipn_all2 by (rewrite length_app; cbn [length]; lia).
      rewrite app_nil_r. reflexivity.
  - intros Hlt. apply readMemory_outside; [lia|].
    unfold vm', len in *. cbn [_memory set_memory].
    rewrite length_app. cbn [length]. lia.
Qed.

Lemma writeMemory_past_the_end_witness :
  let vm' := set_memory
               (_memory sample_vm ++
                [byte_of_Z (777 mod 256); byte_of_Z (777 / 256)]) sample_vm in
  writeMemory 9 777 sample_vm = Ok tt vm' /\
  (len (_memory sample_vm) = 2 * 9 -> readMemory 9 1 vm' = Ok [777] vm') /\
  (len (_memory sample_vm) < 2 * 9 -> readMemory 9 1 vm' = Raise StructError vm').
Proof.
  apply (writeMemory_past_the_end sample_vm 9 777);
    [lia | vm_compute; discriminate].
Defined.

(** ** Failures of [wmem] and [out] in a run *)






(** ** Decoding does not change the machine *)

Lemma final_bind_same {A B} (m : M A) (k : A -> M B) :
  (forall vm, final (m vm) = vm) ->
  (forall a vm, final (k a vm) = vm) ->
  forall vm, final (bind m k vm) = vm.
Proof.
  intros Hm Hk vm. unfold bind. specialize (Hm vm).
  destruct (m vm) as [a vm1|e vm1]; cbn [final] in Hm; subst vm1.
  - apply Hk.
  - reflexivity.
Qed.

Lemma readMemory_final (address words : Z) (vm : VirtualMachine) :
  final (readMemory address words vm) = vm.
Proof.
  unfold readMemory. monad_unfold.
  destruct (_ || _); [reflexivity|].
  destruct (unpack_H _ _); reflexivity.
Qed.

Lemma new_instruction_final (c : opclass) (args : list Z)
    (vm : VirtualMachine) :
  final (new_instruction c args vm) = vm.
Proof. unfold new_instruction. destruct (negb _); reflexivity. Qed.

Lemma decode_final (vm : VirtualMachine) : final (decode vm) = vm.
Proof.
  revert vm. unfold decode.
  apply final_bind_same; [reflexivity | intros pc].
  apply final_bind_same; [apply readMemory_final | intros ws].
  apply final_bind_same; [intros vm; destruct ws; reflexivity | intros opcode].
  destruct (registry opcode) as [c|]; [|reflexivity].
  destruct (negb _); [|apply new_instruction_final].
  apply final_bind_same; [reflexivity | intros pc'].
  apply final_bind_same; [apply readMemory_final | intros args].
  apply new_instruction_final.
Qed.

(** ** What the instructions leave alone *)

Section Frame.

Variable R : VirtualMachine -> VirtualMachine -> Prop.
Hypothesis HR : frame_relation R.

Lemma transits_same {A} (m : M A) :
  (forall vm, final (m vm) = vm) -> transits R m.
Proof. intros H vm. rewrite H. apply (fr_refl R HR). Qed.

Lemma transits_bind {A B} (m : M A) (k : A -> M B) :
  transits R m -> (forall a, transits R (k a)) -> transits R (bind m k).
Proof.
  intros Hm Hk vm. unfold bind. specialize (Hm vm).
  destruct (m vm) as [a vm1|e vm1]; cbn [final] in *.
  - apply (fr_trans R HR vm vm1); [exact Hm | apply Hk].
  - exact Hm.
Qed.

Lemma transits_getValueOrReg (w : Z) : transits R (getValueOrReg w).
Proof. apply transits_same. apply getValueOrReg_final. Qed.

Lemma transits_set_pc (v : Z) : transits R (modify (set_pc v)).
Proof. intros vm. apply (fr_pc R HR). Qed.

Lemma transits_push (v : Z) : transits R (push v).
Proof. intros vm. apply (fr_stack R HR). Qed.

Lemma transits_pop : transits R pop.
Proof.
  intros vm. unfold pop. monad_unfold.
  destruct (_stack vm); cbn [final]; [apply (fr_refl R HR) | apply (fr_stack R HR)].
Qed.

Lemma transits_readMemory (address words : Z) :
  transits R (readMemory address words).
Proof.
  apply transits_same. intros vm. unfold readMemory. monad_unfold.
  destruct (_ || _); [reflexivity|].
  destruct (unpack_H _ _); reflexivity.
Qed.

Lemma transits_chr (v : Z) : transits R (chr v).
Proof.
  apply transits_same. intros vm. unfold chr.
  destruct (_ || _); [reflexivity|]. destruct (_ || _); reflexivity.
Qed.

Lemma transits_unpack2 (args : list Z) : transits R (unpack2 args).
Proof.
  apply transits_same. intros vm. unfold unpack2.
  destruct args as [|a [|b [|c args]]]; reflexivity.
Qed.

Lemma transits_unpack3 (args : list Z) : transits R (unpack3 args).
Proof.
  apply transits_same. intros vm. unfold unpack3.
  destruct args as [|a [|b [|c [|d args]]]]; reflexivity.
Qed.

Lemma transits_index0 (args : list Z) : transits R (index0 args).
Proof.
  apply transits_same. intros vm. unfold index0. destruct args; reflexivity.
Qed.

Lemma transits_default_incpc (c : opclass) : transits R (default_incpc c).
Proof. intros vm. apply (fr_pc R HR). Qed.

Ltac transits_prim :=
  first [ apply transits_getValueOrReg
        | apply transits_pop
        | apply transits_push
        | apply transits_unpack2
        | apply transits_unpack3
        | apply transits_index0
        | apply transits_readMemory
        | apply transits_chr
        | apply transits_set_pc
        | apply transits_default_incpc
        | (apply transits_same; intros ?; reflexivity)
        | (intros ?; apply (fr_running R HR))
        | solve [auto] ].

Ltac transits_step :=
  lazymatch goal with
  | |- transits R (bind _ _) => apply transits_bind; [transits_prim | intros ?]
  | |- transits R (match ?p with _ => _ end) => destruct p
  | |- _ => transits_prim
  end.

(** The effect of an instruction is related by [R] as soon as the parts
    of the machine its class touches are. *)
Lemma transits_exec (i : Instruction) :
  (writes_register (cls i) = true ->
   forall reg v, transits R (setRegister reg v)) ->
  (cls i = CWmem -> forall a d, transits R (writeMemory a d)) ->
  (cls i = CIn -> transits R stdin) ->
  (cls i = COut -> forall c, transits R (stdout_write c)) ->
  transits R (exec i).
Proof.
  destruct i as [c args]. cbn [cls].
  intros Hreg Hmem Hin Hout.
  destruct c; cbn [exec cls _args];
    try specialize (Hreg eq_refl); try specialize (Hmem eq_refl);
    try specialize (Hin eq_refl); try specialize (Hout eq_refl);
    unfold Halt.exec, Set_.exec, Push.exec, Pop.exec, Eq.exec, Gt.exec,
      Jmp.exec, Jt.exec, Jf.exec, Add.exec, Mult.exec, Mod.exec, And.exec,
      Or.exec, Not.exec, Rmem.exec, Wmem.exec, Call.exec, Ret.exec, Out.exec,
      In_.exec, Noop.exec;
    repeat transits_step.
Qed.

Lemma transits_incpc (i : Instruction) : transits R (incpc i).
Proof.
  destruct i as [c args].
  destruct c; cbn [incpc cls _args];
    unfold Jmp.incpc, Jt.incpc, Jf.incpc, Call.incpc, Ret.incpc;
    repeat transits_step.
Qed.

Lemma transits_decode : transits R decode.
Proof. apply transits_same. exact decode_final. Qed.

Lemma transits_loop_body :
  (forall reg v, transits R (setRegister reg v)) ->
  (forall a d, transits R (writeMemory a d)) ->
  transits R stdin ->
  (forall c, transits R (stdout_write c)) ->
  transits R loop_body.
Proof.
  intros Hreg Hmem Hin Hout. unfold loop_body.
  apply transits_bind; [apply transits_decode | intros i].
  apply transits_bind; [apply transits_exec; auto | intros _].
  apply transits_incpc.
Qed.

Lemma reachable_transits (vm0 vm : VirtualMachine) :
  (forall reg v, transits R (setRegister reg v)) ->
  (forall a d, transits R (writeMemory a d)) ->
  transits R stdin ->
  (forall c, transits R (stdout_write c)) ->
  reachable vm0 vm -> R vm0 vm.
Proof.
  intros Hreg Hmem Hin Hout Hreach.
  induction Hreach as [|vm vm' _ IH Hrun Hbody]; [apply (fr_refl R HR)|].
  apply (fr_trans R HR vm0 vm vm' IH).
  pose proof (transits_loop_body Hreg Hmem Hin Hout vm) as H.
  rewrite Hbody in H. exact H.
Qed.

End Frame.

(** *** Output and input *)

Lemma setRegister_final (reg v : Z) (vm : VirtualMachine) :
  final (setRegister reg v vm) = vm \/
  exists rs, final (setRegister reg v vm) = set_registers rs vm.
Proof.
  destruct (Z_le_dec 32768 reg) as [H0|H0];
    [destruct (Z_le_dec reg 32775) as [H1|H1]|].
  - rewrite setRegister_valid by lia. right. eexists. reflexivity.
  - rewrite setRegister_invalid by lia. now left.
  - rewrite setRegister_invalid by lia. now left.
Qed.

Lemma stdout_write_final (c : Z) (vm : VirtualMachine) :
  final (stdout_write c vm) = vm \/
  final (stdout_write c vm) = set_sys_stdout (sys_stdout vm ++ [c]) vm.
Proof.
  unfold stdout_write. destruct (_ && _); [now left | now right].
Qed.

Lemma writeMemory_final (address data : Z) (vm : VirtualMachine) :
  final (writeMemory address data vm) = vm \/
  exists mem, final (writeMemory address data vm) = set_memory mem vm.
Proof.
  unfold writeMemory. monad_unfold.
  destruct (pack_H data); [right; eexists; reflexivity | now left].
Qed.

Lemma stdin_final (vm : VirtualMachine) :
  exists buf src,
    final (stdin vm) = set_stdin_buffer buf (set_sys_stdin src vm) /\
    exists l, _stdin vm ++ sys_stdin vm = l ++ buf ++ src.
Proof.
  destruct (_stdin vm ++ sys_stdin vm) as [|c rest] eqn:E.
  - apply app_eq_nil in E. destruct E as [Hb Hs].
    rewrite (stdin_exhausted vm Hb Hs). cbn [final].
    exists [], []. split; [|exists []; reflexivity].
    destruct vm; cbn in *; subst; reflexivity.
  - destruct (stdin_head vm c rest E)
      as (vm' & Hs & Hrest & H1 & H2 & H3 & H4 & H5 & H6).
    rewrite Hs. cbn [final].
    exists (_stdin vm'), (sys_stdin vm'). split.
    + destruct vm, vm'; cbn in *; subst; reflexivity.
    + exists [c]. rewrite Hrest. reflexivity.
Qed.

Lemma output_extends_frame : frame_relation output_extends.
Proof.
  constructor; unfold output_extends.
  - intros vm. exists []. now rewrite app_nil_r.
  - intros vm1 vm2 vm3 [l1 H1] [l2 H2]. exists (l1 ++ l2).
    rewrite H2, H1. now rewrite app_assoc.
  - intros v vm. exists []. cbn. now rewrite app_nil_r.
  - intros v vm. exists []. cbn. now rewrite app_nil_r.
  - intros v vm. exists []. cbn. now rewrite app_nil_r.
Qed.

Lemma input_consumed_frame : frame_relation input_consumed.
Proof.
  constructor; unfold input_consumed.
  - intros vm. exists []. reflexivity.
  - intros vm1 vm2 vm3 [l1 H1] [l2 H2]. exists (l1 ++ l2).
    rewrite H1, H2. now rewrite app_assoc.
  - intros v vm. exists []. reflexivity.
  - intros v vm. exists []. reflexivity.
  - intros v vm. exists []. reflexivity.
Qed.

(** X18.  Along a run the output only grows and the input is only
    consumed: the characters written in a reachable state start with those
    written before, and the input left to read, line buffer then standard
    input, is a suffix of the input left before. *)
Theorem run_appends_output_and_consumes_input (vm0 vm : VirtualMachine) :
  reachable vm0 vm ->
  (exists l, sys_stdout vm = sys_stdout vm0 ++ l) /\
  (exists l, _stdin vm0 ++ sys_stdin vm0 = l ++ _stdin vm ++ sys_stdin vm).
Proof.
  intros Hreach. split.
  - apply (reachable_transits output_extends output_extends_frame vm0 vm);
      try exact Hreach; unfold transits, output_extends.
    + intros reg v s. exists [].
      destruct (setRegister_final reg v s) as [->|[rs ->]];
        cbn; now rewrite app_nil_r.
    + intros a d s. exists [].
      destruct (writeMemory_final a d s) as [->|[mem ->]];
        cbn; now rewrite app_nil_r.
    + intros s. exists [].
      destruct (stdin_final s) as (buf & src & -> & _).
      cbn. now rewrite app_nil_r.
    + intros c s. destruct (stdout_write_final c s) as [->| ->].
      * exists []. now rewrite app_nil_r.
      * exists [c]. reflexivity.
  - apply (reachable_transits input_consumed input_consumed_frame vm0 vm);
      try exact Hreach; unfold transits, input_consumed.
    + intros reg v s. exists [].
      destruct (setRegister_final reg v s) as [->|[rs ->]]; reflexivity.
    + intros a d s. exists [].
      destruct (writeMemory_final a d s) as [->|[mem ->]]; reflexivity.
    + intros s. destruct (stdin_final s) as (buf & src & -> & l & Hl).
      exists l. exact Hl.
    + intros c s. exists [].
      destruct (stdout_write_final c s) as [->| ->]; reflexivity.
Qed.

Lemma after_echo_reachable :
  reachable (init echo_image [120; 10; 121]) after_echo.
Proof.
  eapply reachable_turn;
    [eapply reachable_turn;
     [eapply reachable_turn; [apply reachable_start | |] | |] | |];
    reflexivity.
Qed.

Lemma run_appends_output_and_consumes_input_witness :
  (exists l, sys_stdout after_echo =
             sys_stdout (init echo_image [120; 10; 121]) ++ l) /\
  (exists l, _stdin (init echo_image [120; 10; 121]) ++
             sys_stdin (init echo_image [120; 10; 121]) =
             l ++ _stdin after_echo ++ sys_stdin after_echo).
Proof.
  apply (run_appends_output_and_consumes_input
           (init echo_image [120; 10; 121]) after_echo).
  exact after_echo_reachable.
Defined.

(** *** Memory and registers *)

Lemma same_memory_frame : frame_relation same_memory.
Proof. constructor; unfold same_memory; try reflexivity. congruence. Qed.

Lemma same_registers_frame : frame_relation same_registers.
Proof. constructor; unfold same_registers; try reflexivity. congruence. Qed.

(** X19.  Only [wmem] writes the memory: the effect of an instruction of
    any other class and the advance of the program counter of any
    instruction leave the memory as it was, whether they return or raise;
    so does a whole turn of the loop that decodes such an instruction. *)
Theorem only_wmem_writes_memory (vm : VirtualMachine) (i : Instruction) :
  cls i <> CWmem ->
  _memory (final (exec i vm)) = _memory vm /\
  _memory (final (incpc i vm)) = _memory vm /\
  (decode vm = Ok i vm -> _memory (final (loop_body vm)) = _memory vm).
Proof.
  intros Hc.
  assert (He : transits same_memory (exec i)).
  { apply (transits_exec same_memory same_memory_frame).
    - intros _ reg v s. unfold same_memory.
      destruct (setRegister_final reg v s) as [->|[rs ->]]; reflexivity.
    - intros Habs. contradiction.
    - intros _ s. unfold same_memory.
      destruct (stdin_final s) as (buf & src & -> & _). reflexivity.
    - intros _ c s. unfold same_memory.
      destruct (stdout_write_final c s) as [->| ->]; reflexivity. }
  pose proof (transits_incpc same_memory same_memory_frame i) as Hi.
  split; [apply He | split; [apply Hi|]].
  intros Hd. unfold loop_body. unfold bind at 1. rewrite Hd.
  pose proof (transits_bind same_memory same_memory_frame (exec i)
                (fun _ => incpc i) He (fun _ => Hi) vm) as H.
  exact H.
Qed.

Lemma only_wmem_writes_memory_witness :
  _memory (final (exec (mkInstruction CSet [32768; 32769]) sample_vm)) =
    _memory sample_vm /\
  _memory (final (incpc (mkInstruction CSet [32768; 32769]) sample_vm)) =
    _memory sample_vm /\
  (decode sample_vm = Ok (mkInstruction CSet [32768; 32769]) sample_vm ->
   _memory (final (loop_body sample_vm)) = _memory sample_vm).
Proof.
  apply (only_wmem_writes_memory sample_vm (mkInstruction CSet [32768; 32769])).
  discriminate.
Defined.

(** X20.  The registers are written only by the twelve instructions that
    have a destination register ([set], [pop], [eq], [gt], [add], [mult],
    [mod], [and], [or], [not], [rmem], [in]): the effect of any other
    instruction, and the advance of the program counter of every
    instruction, leave the register bank as it was. *)
Theorem registers_written_only_by_destination (vm : VirtualMachine)
    (i : Instruction) :
  writes_register (cls i) = false ->
  _registers (final (exec i vm)) = _registers vm /\
  _registers (final (incpc i vm)) = _registers vm.
Proof.
  intros Hc. split.
  - apply (transits_exec same_registers same_registers_frame).
    + intros Habs. rewrite Hc in Habs. discriminate Habs.
    + intros _ a d s. unfold same_registers.
      destruct (writeMemory_final a d s) as [->|[mem ->]]; reflexivity.
    + intros Hin. rewrite Hin in Hc. discriminate Hc.
    + intros _ c s. unfold same_registers.
      destruct (stdout_write_final c s) as [->| ->]; reflexivity.
  - apply (transits_incpc same_registers same_registers_frame).
Qed.

Lemma registers_written_only_by_destination_witness :
  _registers (final (exec (mkInstruction CWmem [2; 32769]) sample_vm)) =
    _registers sample_vm /\
  _registers (final (incpc (mkInstruction CWmem [2; 32769]) sample_vm)) =
    _registers sample_vm.
Proof.
  apply (registers_written_only_by_destination sample_vm
           (mkInstruction CWmem [2; 32769])).
  reflexivity.
Defined.

(** ** Leaving the image *)

(** X21.  When the program counter is not negative and the word it
    designates is not wholly inside the memory, the fetch raises
    [struct.error] and a running machine ends its run with it, unchanged:
    a program that runs off its end without [halt] stops this way. *)
Theorem fetch_past_the_end (vm : VirtualMachine) (fuel : nat) :
  0 <= _pc vm ->
  len (_memory vm) < 2 * _pc vm + 2 ->
  decode vm = Raise StructError vm /\
  (running vm = true -> run (S fuel) vm = Some (Raise StructError vm)).
Proof.
  intros Hpc Hlen.
  assert (Hd : decode vm = Raise StructError vm).
  { unfold decode. monad_unfold.
    rewrite (readMemory_outside vm (_pc vm) Hpc Hlen). reflexivity. }
  split; [exact Hd|].
  intros Hrun. apply run_raise; [exact Hrun|].
  unfold loop_body, bind. rewrite Hd. reflexivity.
Qed.

Lemma fetch_past_the_end_witness :
  decode off_the_end_vm = Raise StructError off_the_end_vm /\
  (running off_the_end_vm = true ->
   run 1 off_the_end_vm = Some (Raise StructError off_the_end_vm)).
Proof.
  apply (fetch_past_the_end off_the_end_vm 0); [cbn; lia | reflexivity].
Defined.

(** X22.  [rmem a b] with an address that is not wholly inside the memory
    raises [struct.error] and writes no register, whatever [a] is; inside
    the memory, with a register [a], it stores the little-endian word
    found at the address. *)
Theorem rmem_inside_and_outside (vm : VirtualMachine) (a b addr : Z) :
  getValueOrReg b vm = Ok addr vm ->
  0 <= addr ->
  (len (_memory vm) < 2 * addr + 2 ->
   Rmem.exec [a; b] vm = Raise StructError vm) /\
  (2 * addr + 2 <= len (_memory vm) ->
   32768 <= a <= 32775 ->
   Rmem.exec [a; b] vm =
     Ok tt (set_registers
              (with_register (a - 32768) (word_at (_memory vm) addr)
                 (_registers vm)) vm)).
Proof.
  intros Hb Haddr. split.
  - intros Hout. unfold Rmem.exec. monad_unfold. rewrite Hb.
    rewrite (readMemory_outside vm addr Haddr Hout). reflexivity.
  - intros Hin Ha. unfold Rmem.exec. monad_unfold. rewrite Hb.
    rewrite (readMemory_word vm addr Haddr Hin).
    apply setRegister_valid. exact Ha.
Qed.

Lemma rmem_inside_and_outside_witness :
  Rmem.exec [5; 4] sample_vm = Raise StructError sample_vm /\
  Rmem.exec [32770; 2] sample_vm =
    Ok tt (set_registers
             (with_register (32770 - 32768) (word_at (_memory sample_vm) 2)
                (_registers sample_vm)) sample_vm).
Proof.
  split.
  - apply (proj1 (rmem_inside_and_outside sample_vm 5 4 4 eq_refl ltac:(lia))).
    reflexivity.
  - apply (proj2 (rmem_inside_and_outside sample_vm 32770 2 2 eq_refl
                    ltac:(lia))); [vm_compute; discriminate | lia].
Defined.

(** ** Effects that precede a failure *)

(** X23.  [pop] and [in] take their value before they look at the
    destination: with a destination that is not a register, [pop a]
    raises [NameError] after the stack has lost its top, and [in a]
    raises it after the character has been taken from the input. *)
Theorem pop_and_in_consume_before_failing (vm : VirtualMachine)
    (a v c : Z) (st rest : list Z) :
  ~ 32768 <= a <= 32775 ->
  (_stack vm = st ++ [v] ->
   0 <= v <= 32767 ->
   Pop.exec [a] vm = Raise NameError (set_stack st vm)) /\
  (_stdin vm ++ sys_stdin vm = c :: rest ->
   exists vm',
     In_.exec [a] vm = Raise NameError vm' /\
     _stdin vm' ++ sys_stdin vm' = rest /\
     _registers vm' = _registers vm).
Proof.
  intros Ha. split.
  - intros Hst Hv. unfold Pop.exec. monad_unfold.
    rewrite (pop_last vm st v Hst).
    rewrite getValueOrReg_literal by exact Hv.
    apply setRegister_invalid. exact Ha.
  - intros Hin.
    destruct (stdin_head vm c rest Hin)
      as (vm' & Hs & Hrest & _ & _ & _ & _ & Hregs & _).
    exists vm'. split; [|split; assumption].
    unfold In_.exec. monad_unfold. rewrite Hs.
    apply setRegister_invalid. exact Ha.
Qed.

Lemma pop_and_in_consume_before_failing_witness :
  Pop.exec [7] sample_vm = Raise NameError (set_stack [4] sample_vm) /\
  exists vm',
    In_.exec [7] buffered_vm = Raise NameError vm' /\
    _stdin vm' ++ sys_stdin vm' = [98; 99; 10; 100] /\
    _registers vm' = _registers buffered_vm.
Proof.
  split.
  - apply (proj1 (pop_and_in_consume_before_failing sample_vm 7 5 0 [4] []
                    ltac:(lia))); [reflexivity | lia].
  - apply (proj2 (pop_and_in_consume_before_failing buffered_vm 7 0 10 []
                    [98; 99; 10; 100] ltac:(lia))).
    reflexivity.
Defined.
